(** * inat-curated-species-list: the identification-history resolver,
      the observation scanner and the aggregator

    A shallow embedding of [packages/tools/src/helpers.ts] (two revisions:
    the one that also records taxon-change events, and the earlier one
    without the event sink), followed by the properties of the resolver,
    the scanner and the aggregator.

    Conventions of the embedding

    - a JS object used as a dictionary is a [gmap] of the properties of its
      own; a property read that finds no such property goes on to the
      members every JS object inherits ([constructor], [toString], ...),
      whose names are a parameter, [objectMember].  This matters where the
      key is an arbitrary string: the prior species names of the ledger and
      the keys of [generatedKeys].  A key that is a number (a taxon id, a
      year) is read as its decimal form, or [NaN], which names no inherited
      member, so the lookup is that of the [gmap];
    - an array grown with [push] is a [list] extended at its right end;
    - the three mutable accumulators that the source threads by reference
      ([processedData], [taxonsToRemove], [taxonChangeData]) are passed
      explicitly, in a record;
    - [process.exit(1)] and an uncaught [TypeError] (a property read on
      [undefined]) are the two abnormal outcomes of [Outcome];
    - [null] / [undefined] in a nullable field is [None];
    - [new Date(s).getFullYear()] and [new Date(s).getTime()] are
      parameters of the development: they depend on the host's date parser
      and time zone.  [None] stands for [NaN]. *)

From Stdlib Require Import ZArith Ascii String.
From stdpp Require Import gmap strings list fin_maps.

Local Open Scope string_scope.
Local Open Scope list_scope.
Local Open Scope nat_scope.

(** ** Outcomes of a computation that may kill the process or throw *)

Inductive Outcome (A : Type) : Type :=
  | Ok (a : A)
  | ProcessExit          (* process.exit(1) *)
  | TypeError.           (* property read on undefined *)

Arguments Ok {A} a.
Arguments ProcessExit {A}.
Arguments TypeError {A}.

Global Instance Outcome_ret : MRet Outcome := fun A a => Ok a.

Global Instance Outcome_bind : MBind Outcome := fun A B k m =>
  match m with
  | Ok a => k a
  | ProcessExit => ProcessExit
  | TypeError => TypeError
  end.

Global Instance Outcome_fmap : FMap Outcome := fun A B f m =>
  match m with
  | Ok a => Ok (f a)
  | ProcessExit => ProcessExit
  | TypeError => TypeError
  end.

(** A property read [o.f] where [o] may be [undefined]. *)
Definition defined {A : Type} (o : option A) : Outcome A :=
  match o with
  | Some a => Ok a
  | None => TypeError
  end.

(** ** Data model (types/generator.types, as used by the helpers) *)

Record TaxonChange := {
  tc_id : Z;
  tc_type : string;
}.

Record INatTaxonAncestor := {
  anc_id : Z;
  anc_name : string;
  anc_rank : string;
}.

Record INatTaxon := {
  t_id : Z;
  t_name : string;
  t_rank : string;
  t_ancestors : list INatTaxonAncestor;
}.

Record User := {
  login : string;
  name : string;
  id : Z;
}.

Record Identification := {
  user : User;
  taxon : INatTaxon;
  taxon_id : Z;
  current : bool;
  created_at : string;
  taxon_change : option TaxonChange;
}.

Record Observation := {
  obs_id : Z;
  observed_on_details : option string;   (* the [date] of the details *)
  created_at_details : string;           (* the [date] of the details *)
  obs_user : User;
  identifications : list Identification;
}.

Record TaxonChangeData := {
  tcd_id : Z;
  previousSpeciesName : string;
  newSpeciesName : string;
  yearChanged : option Z;
  taxonChangeId : Z;
}.

Record HistoricalCuratorObsIdentification := {
  taxonId : Z;
  confirmationDate : string;
  isTaxonChange : bool;
}.

Record Resolution := {
  deprecatedTaxonIds : list Z;
  originalConfirmationDate : option string;   (* [None]: never assigned *)
}.

Record Observer := {
  username : string;
  observer_name : string;
  observer_id : Z;
}.

Record ObservationRecord := {
  observationId : Z;
  dateObserved : option string;
  observationCreatedAt : string;
  rec_confirmationDate : option string;
  confirmationDateUnix : option Z;
  curator : string;
  observer : Observer;
}.

Record SpeciesEntry := {
  speciesName : option string;
  observations : list ObservationRecord;
  taxonomy : option (gmap string string);
}.

Record LedgerEntry := {
  le_newSpeciesName : string;
  le_taxonChangeId : Z;
}.

(** The three accumulators [parseDataFiles] creates and [parseDataFile]
    mutates in place. *)
Record Accumulators := {
  processedData : gmap Z SpeciesEntry;
  taxonsToRemove : list Z;
  taxonChangeData : list TaxonChangeData;
}.

Global Instance TaxonChange_eq_dec : EqDecision TaxonChange.
Proof. solve_decision. Defined.
Global Instance Ancestor_eq_dec : EqDecision INatTaxonAncestor.
Proof. solve_decision. Defined.
Global Instance Taxon_eq_dec : EqDecision INatTaxon.
Proof. solve_decision. Defined.
Global Instance User_eq_dec : EqDecision User.
Proof. solve_decision. Defined.
Global Instance Identification_eq_dec : EqDecision Identification.
Proof. solve_decision. Defined.
Global Instance TaxonChangeData_eq_dec : EqDecision TaxonChangeData.
Proof. solve_decision. Defined.

(** ** Array helpers *)

(** [Array.prototype.indexOf]: position of the first element equal to
    [x], [-1] when there is none. *)
Fixpoint indexOf {A : Type} `{EqDecision A} (l : list A) (x : A) : Z :=
  match l with
  | [] => (-1)%Z
  | y :: l' =>
      if decide (y = x) then 0%Z
      else let r := indexOf l' x in if decide (r = (-1)%Z) then (-1)%Z else (1 + r)%Z
  end.

(** [Array.prototype.includes]. *)
Definition includes {A : Type} `{EqDecision A} (l : list A) (x : A) : bool :=
  bool_decide (x ∈ l).

(** [arr.filter((value, index, array) => p value index)], the callback
    receiving the position; [i] is the position of the head of [l]. *)
Fixpoint filterIndexed {A : Type} (p : A → Z → bool) (i : Z) (l : list A) : list A :=
  match l with
  | [] => []
  | x :: l' =>
      if p x i then x :: filterIndexed p (i + 1)%Z l' else filterIndexed p (i + 1)%Z l'
  end.

(** [getUniqueItems]: keep the elements whose first position is their own. *)
Definition getUniqueItems (arr : list Z) : list Z :=
  filterIndexed (fun value index => bool_decide (indexOf arr value = index)) 0%Z arr.

(** ** Taxonomy extractor *)

(** [getTaxonomy]: a left-to-right [reduce] into an initially empty object. *)
Definition getTaxonomy (ancestors : list INatTaxonAncestor) (taxonsToReturn : list string)
    : gmap string string :=
  foldl (fun acc curr =>
           if bool_decide (indexOf taxonsToReturn (anc_rank curr) ≠ (-1)%Z)
           then <[anc_rank curr := anc_name curr]> acc
           else acc)
        ∅ ancestors.

(** ** Taxon-change resolver *)

Definition knownTaxonChangeTypes : list string :=
  ["TaxonSwap"; "TaxonSplit"; "TaxonMerge"].

(** The test that guards [process.exit(1)]. *)
Definition unknownTaxonChangeType (tc : TaxonChange) : bool :=
  bool_decide (indexOf knownTaxonChangeTypes (tc_type tc) = (-1)%Z).

(** [!!x] of a nullable object. *)
Definition truthy {A : Type} (o : option A) : bool :=
  match o with Some _ => true | None => false end.

Definition historical (ident : Identification) : HistoricalCuratorObsIdentification :=
  {| taxonId := taxon_id ident;
     confirmationDate := created_at ident;
     isTaxonChange := truthy (taxon_change ident) |}.

(** The second loop of the resolver,
    [for (let i = 0; i < curatorObservations.length; i++)]:
    [i] is the position of the head of [l], [deprecated] the ids pushed so
    far.  Falling off the end leaves [originalConfirmationDate] unassigned. *)
Fixpoint forwardScan (i : nat) (l : list HistoricalCuratorObsIdentification)
    (deprecated : list Z) : Resolution :=
  match l with
  | [] => {| deprecatedTaxonIds := deprecated; originalConfirmationDate := None |}
  | h :: l' =>
      let deprecated' :=
        if bool_decide (i ≠ 0) then deprecated ++ [taxonId h] else deprecated in
      if negb (isTaxonChange h)
      then {| deprecatedTaxonIds := deprecated';
              originalConfirmationDate := Some (confirmationDate h) |}
      else forwardScan (S i) l' deprecated'
  end.

Section Resolver.

(** [new Date(s).getFullYear()]. *)
Variable Date_getFullYear : string → option Z.

(** The loop [for (let i = curatorIdentificationIndex; i >= 0; i--)].
    [n] is [i + 1], so that [n = 0] is the exit of the loop; the loop
    variables are [lastCuratorObservation], the event sink and
    [curatorObservations]. *)
Fixpoint backwardWalk (obs : Observation) (curatorIdentificationIndex : nat)
    (targetCurator : string) (n : nat)
    (lastCuratorObservation : Identification)
    (taxonChangeData : list TaxonChangeData)
    (curatorObservations : list HistoricalCuratorObsIdentification)
    : Outcome (list TaxonChangeData * list HistoricalCuratorObsIdentification) :=
  match n with
  | O => Ok (taxonChangeData, curatorObservations)
  | S i =>
      currIdentification ← defined (identifications obs !! i);
      if bool_decide (login (user currIdentification) ≠ targetCurator)
      then backwardWalk obs curatorIdentificationIndex targetCurator i
             lastCuratorObservation taxonChangeData curatorObservations
      else
        '(lastCuratorObservation', taxonChangeData') ←
          (if bool_decide (i ≠ curatorIdentificationIndex)
           then
             change ← defined (taxon_change lastCuratorObservation);
             let row :=
               {| tcd_id := obs_id obs;
                  previousSpeciesName := t_name (taxon currIdentification);
                  newSpeciesName := t_name (taxon lastCuratorObservation);
                  yearChanged := Date_getFullYear (created_at lastCuratorObservation);
                  taxonChangeId := tc_id change |} in
             Ok (if truthy (taxon_change currIdentification)
                 then currIdentification else lastCuratorObservation,
                 taxonChangeData ++ [row])
           else Ok (lastCuratorObservation, taxonChangeData));
        backwardWalk obs curatorIdentificationIndex targetCurator i
          lastCuratorObservation' taxonChangeData'
          (curatorObservations ++ [historical currIdentification])
  end.

(** [getConfirmationDateAccountingForTaxonChanges], the revision with the
    event sink.  The result pairs the returned object with the sink after
    the call. *)
Definition getConfirmationDateAccountingForTaxonChanges
    (curatorIdentificationIndex : nat) (obs : Observation)
    (taxonChangeData : list TaxonChangeData)
    : Outcome (Resolution * list TaxonChangeData) :=
  curatorIdentification ← defined (identifications obs !! curatorIdentificationIndex);
  let curatorConfirmationDate := created_at curatorIdentification in
  match taxon_change curatorIdentification with
  | None =>
      Ok ({| deprecatedTaxonIds := [];
             originalConfirmationDate := Some curatorConfirmationDate |},
          taxonChangeData)
  | Some change =>
      if unknownTaxonChangeType change then ProcessExit
      else
        let targetCurator := login (user curatorIdentification) in
        '(taxonChangeData', curatorObservations) ←
          backwardWalk obs curatorIdentificationIndex targetCurator
            (S curatorIdentificationIndex) curatorIdentification taxonChangeData [];
        Ok (forwardScan 0 curatorObservations [], taxonChangeData')
  end.

End Resolver.

(** The earlier revision of the resolver, which has no event sink. *)
Module Helpers.

Fixpoint backwardWalk (obs : Observation) (targetCurator : string) (n : nat)
    (curatorObservations : list HistoricalCuratorObsIdentification)
    : Outcome (list HistoricalCuratorObsIdentification) :=
  match n with
  | O => Ok curatorObservations
  | S i =>
      currIdentification ← defined (identifications obs !! i);
      if bool_decide (login (user currIdentification) ≠ targetCurator)
      then backwardWalk obs targetCurator i curatorObservations
      else backwardWalk obs targetCurator i
             (curatorObservations ++ [historical currIdentification])
  end.

Definition getConfirmationDateAccountingForTaxonChanges
    (curatorIdentificationIndex : nat) (obs : Observation) : Outcome Resolution :=
  curatorIdentification ← defined (identifications obs !! curatorIdentificationIndex);
  let curatorConfirmationDate := created_at curatorIdentification in
  match taxon_change curatorIdentification with
  | None =>
      Ok {| deprecatedTaxonIds := [];
            originalConfirmationDate := Some curatorConfirmationDate |}
  | Some change =>
      if unknownTaxonChangeType change then ProcessExit
      else
        let targetCurator := login (user curatorIdentification) in
        curatorObservations ←
          backwardWalk obs targetCurator (S curatorIdentificationIndex) [];
        Ok (forwardScan 0 curatorObservations [])
  end.

End Helpers.

(** ** Observation scanner and aggregator *)

Section Aggregator.

Variable Date_getFullYear : string → option Z.
(** [new Date(d).getTime()], [d] possibly [undefined]. *)
Variable Date_getTime : option string → option Z.
(** The names of the members every object inherits; a read of such a name
    finds the inherited member, which is truthy, when the object has no
    property of its own under that name. *)
Variable objectMember : string → bool.

Definition emptyEntry : SpeciesEntry :=
  {| speciesName := None; observations := []; taxonomy := None |}.

(** The three [continue] tests of the scanner, as one predicate: the
    identification is current, by a curator, at species or subspecies rank. *)
Definition qualifies (curators : list string) (ident : Identification) : bool :=
  current ident
  && includes curators (login (user ident))
  && negb (bool_decide (t_rank (taxon ident) ≠ "species")
           && bool_decide (t_rank (taxon ident) ≠ "subspecies")).

(** [arr[arr.length - 1]]. *)
Definition lastItem {A : Type} (l : list A) : option A := last l.

(** The species id and name a qualifying identification is filed under. *)
Definition resolveSpecies (ident : Identification) : Outcome (Z * string) :=
  let isSubspeciesIdent := bool_decide (t_rank (taxon ident) = "subspecies") in
  if isSubspeciesIdent
  then
    speciesAncestor ← defined (lastItem (t_ancestors (taxon ident)));
    Ok (anc_id speciesAncestor, anc_name speciesAncestor)
  else Ok (t_id (taxon ident), t_name (taxon ident)).

(** The object pushed on [processedData[curatorTaxonId].observations]. *)
Definition observationRecord (obs : Observation) (ident : Identification)
    (originalConfirmationDate : option string) : ObservationRecord :=
  {| observationId := obs_id obs;
     dateObserved := observed_on_details obs;
     observationCreatedAt := created_at_details obs;
     rec_confirmationDate := originalConfirmationDate;
     confirmationDateUnix := Date_getTime originalConfirmationDate;
     curator := login (user ident);
     observer := {| username := login (obs_user obs);
                    observer_name := name (obs_user obs);
                    observer_id := id (obs_user obs) |} |}.

(** The three updates of [processedData[curatorTaxonId]]: the name is
    overwritten, the record is pushed, the taxonomy is set if it is falsy. *)
Definition updateEntry (taxonsToReturn : list string) (ident : Identification)
    (speciesName : string) (record : ObservationRecord) (entry : SpeciesEntry)
    : SpeciesEntry :=
  {| speciesName := Some speciesName;
     observations := observations entry ++ [record];
     taxonomy :=
       if truthy (taxonomy entry) then taxonomy entry
       else Some (getTaxonomy (t_ancestors (taxon ident)) taxonsToReturn) |}.

(** The body of the scanner's loop for the identification at position [i],
    once the three filters have let it through (up to the [break]). *)
Definition recordIdentification (taxonsToReturn : list string) (obs : Observation)
    (i : nat) (ident : Identification) (acc : Accumulators)
    : Outcome (Z * Accumulators) :=
  '(curatorTaxonId, speciesName) ← resolveSpecies ident;
  let processedData1 :=
    if truthy (processedData acc !! curatorTaxonId) then processedData acc
    else <[curatorTaxonId := emptyEntry]> (processedData acc) in
  '(resolution, taxonChangeData') ←
    getConfirmationDateAccountingForTaxonChanges Date_getFullYear i obs
      (taxonChangeData acc);
  let taxonsToRemove' := taxonsToRemove acc ++ deprecatedTaxonIds resolution in
  entry ← defined (processedData1 !! curatorTaxonId);
  let record := observationRecord obs ident (originalConfirmationDate resolution) in
  Ok (curatorTaxonId,
      {| processedData :=
           <[curatorTaxonId := updateEntry taxonsToReturn ident speciesName record entry]>
             processedData1;
         taxonsToRemove := taxonsToRemove';
         taxonChangeData := taxonChangeData' |}).

(** Specification side: what the body of the loop leaves in the
    accumulators when neither the species resolution nor the resolver fails. *)
Definition recorded (ranks : list string) (obs : Observation) (ident : Identification)
    (acc : Accumulators) (curatorTaxonId : Z) (speciesName : string)
    (resolution : Resolution) (sink : list TaxonChangeData) : Accumulators :=
  {| processedData :=
       <[curatorTaxonId :=
           updateEntry ranks ident speciesName
             (observationRecord obs ident (originalConfirmationDate resolution))
             (default emptyEntry (processedData acc !! curatorTaxonId))]>
         (processedData acc);
     taxonsToRemove := taxonsToRemove acc ++ deprecatedTaxonIds resolution;
     taxonChangeData := sink |}.

(** The loop [for (let i = 0; i < obs.identifications.length; i++)]:
    [rest] is what remains of [obs.identifications] from position [i] on.
    The first component of the result is [curatorTaxonId] as the loop
    leaves it ([None] for [null]). *)
Fixpoint scanIdentifications (curators taxonsToReturn : list string)
    (obs : Observation) (i : nat) (rest : list Identification)
    (acc : Accumulators) : Outcome (option Z * Accumulators) :=
  match rest with
  | [] => Ok (None, acc)
  | ident :: rest' =>
      if negb (current ident)
      then scanIdentifications curators taxonsToReturn obs (S i) rest' acc
      else if negb (includes curators (login (user ident)))
      then scanIdentifications curators taxonsToReturn obs (S i) rest' acc
      else if bool_decide (t_rank (taxon ident) ≠ "species")
              && bool_decide (t_rank (taxon ident) ≠ "subspecies")
      then scanIdentifications curators taxonsToReturn obs (S i) rest' acc
      else
        '(curatorTaxonId, acc') ← recordIdentification taxonsToReturn obs i ident acc;
        Ok (Some curatorTaxonId, acc')
  end.

(** The callback of [content.results.forEach]: the scan, then the cleanup
    [if (curatorTaxonId && !processedData[curatorTaxonId].observations.length)]
    (a number is truthy when it is not zero). *)
Definition parseObservation (curators taxonsToReturn : list string)
    (acc : Accumulators) (obs : Observation) : Outcome Accumulators :=
  '(curatorTaxonId, acc') ←
    scanIdentifications curators taxonsToReturn obs 0 (identifications obs) acc;
  match curatorTaxonId with
  | Some taxonId =>
      if bool_decide (taxonId ≠ 0%Z)
      then
        entry ← defined (processedData acc' !! taxonId);
        if bool_decide (length (observations entry) = 0)
        then Ok {| processedData := delete taxonId (processedData acc');
                   taxonsToRemove := taxonsToRemove acc';
                   taxonChangeData := taxonChangeData acc' |}
        else Ok acc'
      else Ok acc'
  | None => Ok acc'
  end.

(** [parseDataFile], on the parsed [results] of one packet. *)
Fixpoint parseDataFile (results : list Observation) (curators taxonsToReturn : list string)
    (acc : Accumulators) : Outcome Accumulators :=
  match results with
  | [] => Ok acc
  | obs :: results' =>
      acc' ← parseObservation curators taxonsToReturn acc obs;
      parseDataFile results' curators taxonsToReturn acc'
  end.

(** The loop [for (let i = 1; i <= numFiles; i++)] over the packets. *)
Fixpoint parsePackets (packets : list (list Observation)) (curators taxon : list string)
    (acc : Accumulators) : Outcome Accumulators :=
  match packets with
  | [] => Ok acc
  | results :: packets' =>
      acc' ← parseDataFile results curators taxon acc;
      parsePackets packets' curators taxon acc'
  end.

(** [items.forEach((taxonId) => { delete newAdditions[taxonId]; })]. *)
Definition removeTaxons (items : list Z) (newAdditions : gmap Z SpeciesEntry)
    : gmap Z SpeciesEntry :=
  foldl (fun m taxonId => delete taxonId m) newAdditions items.

(** The condition [ofYear[priorName]], for a year's object [ofYear]: its own
    properties are ledger entries, which are objects and so truthy. *)
Definition priorNameFound (ofYear : gmap string LedgerEntry) (priorName : string) : bool :=
  match ofYear !! priorName with
  | Some _ => true
  | None => objectMember priorName
  end.

(** The callback of [taxonChangeData.forEach].  The year is a number, read
    as a property of the ledger's own; the prior name is any string, and its
    read goes on to the inherited members. *)
Definition groupRow (grouped : gmap (option Z) (gmap string LedgerEntry))
    (row : TaxonChangeData) : gmap (option Z) (gmap string LedgerEntry) :=
  let grouped1 :=
    if truthy (grouped !! yearChanged row) then grouped
    else <[yearChanged row := ∅]> grouped in
  match grouped1 !! yearChanged row with
  | Some ofYear =>
      if priorNameFound ofYear (previousSpeciesName row) then grouped1
      else <[yearChanged row :=
               <[previousSpeciesName row :=
                   {| le_newSpeciesName := newSpeciesName row;
                      le_taxonChangeId := taxonChangeId row |}]> ofYear]> grouped1
  | None => grouped1   (* not reached: the year was just ensured *)
  end.

Definition groupByYear (rows : list TaxonChangeData)
    : gmap (option Z) (gmap string LedgerEntry) :=
  foldl groupRow ∅ rows.

(** What [parseDataFiles] does once the packets are read. *)
Definition finish (acc : Accumulators)
    : gmap Z SpeciesEntry * gmap (option Z) (gmap string LedgerEntry) :=
  let items := getUniqueItems (taxonsToRemove acc) in
  (removeTaxons items (processedData acc), groupByYear (taxonChangeData acc)).

Definition initial : Accumulators :=
  {| processedData := ∅; taxonsToRemove := []; taxonChangeData := [] |}.

(** [parseDataFiles]: [packets] are the parsed [results] of
    [packet-1.json] ... [packet-numFiles.json], in that order. *)
Definition parseDataFiles (packets : list (list Observation)) (curators taxon : list string)
    : Outcome (gmap Z SpeciesEntry * gmap (option Z) (gmap string LedgerEntry)) :=
  acc ← parsePackets packets curators taxon initial;
  Ok (finish acc).

End Aggregator.

(** ** Specification-side vocabulary for the resolver *)

(** The identifications of [targetCurator] among the first [n] of the
    observation, newest first: the order in which the backward walk meets
    them. *)
Definition curatorHistory (obs : Observation) (targetCurator : string) (n : nat)
    : list Identification :=
  filter (fun ident => login (user ident) = targetCurator)
         (reverse (take n (identifications obs))).

(** The "last curator observation" pointer after the walk has passed the
    first [k] entries of [earlier], starting from [start]: it advances to
    each entry that carries a taxon change. *)
Definition pointerAfter (start : Identification) (earlier : list Identification)
    (k : nat) : Identification :=
  foldl (fun lastCuratorObservation ident =>
           if truthy (taxon_change ident) then ident else lastCuratorObservation)
        start (take k earlier).

Section ResolverVocabulary.

Variable Date_getFullYear : string → option Z.

(** The events the walk emits for the entries of [earlier], met in that
    order with the pointer at [lastCuratorObservation]. *)
Fixpoint walkEvents (obs : Observation) (lastCuratorObservation : Identification)
    (earlier : list Identification) : list TaxonChangeData :=
  match earlier with
  | [] => []
  | ident :: earlier' =>
      match taxon_change lastCuratorObservation with
      | Some change =>
          {| tcd_id := obs_id obs;
             previousSpeciesName := t_name (taxon ident);
             newSpeciesName := t_name (taxon lastCuratorObservation);
             yearChanged := Date_getFullYear (created_at lastCuratorObservation);
             taxonChangeId := tc_id change |}
          :: walkEvents obs
               (if truthy (taxon_change ident) then ident else lastCuratorObservation)
               earlier'
      | None => []
      end
  end.

End ResolverVocabulary.

(** ** Specification-side vocabulary for the scanner *)

(** The earliest identification that passes the three filters, with its
    position. *)
Definition firstQualifying (curators : list string) (ids : list Identification)
    : option (nat * Identification) :=
  list_find (fun ident => qualifies curators ident = true) ids.

(** The number of observation records held by the aggregate. *)
Definition recordCount (processed : gmap Z SpeciesEntry) : nat :=
  map_fold (fun _ entry n => length (observations entry) + n) 0 processed.

(** The same observation with another identification history. *)
Definition withIdentifications (obs : Observation) (ids : list Identification)
    : Observation :=
  {| obs_id := obs_id obs;
     observed_on_details := observed_on_details obs;
     created_at_details := created_at_details obs;
     obs_user := obs_user obs;
     identifications := ids |}.

(** The observation's record is filed under [speciesId]: its earliest
    qualifying identification resolves to that species. *)
Definition filedUnder (curators : list string) (obs : Observation) (speciesId : Z) : Prop :=
  ∃ i q speciesName,
    firstQualifying curators (identifications obs) = Some (i, q)
    ∧ resolveSpecies q = Ok (speciesId, speciesName).

(** The taxonomy behind the export, as far as an identification shows it:
    [rankOf] gives the rank of each taxon id; the identification's taxon and
    its ancestors carry the ranks of their ids, and the ancestor chain of a
    subspecies runs from the root to its parent species. *)
Definition taxonomyRespected (rankOf : Z → string) (ident : Identification) : Prop :=
  rankOf (t_id (taxon ident)) = t_rank (taxon ident)
  ∧ Forall (fun a => rankOf (anc_id a) = anc_rank a) (t_ancestors (taxon ident))
  ∧ (t_rank (taxon ident) = "subspecies" →
     ∀ a, lastItem (t_ancestors (taxon ident)) = Some a → anc_rank a = "species").

(** The observation flags [taxonId] as superseded: the resolver, called on
    its earliest qualifying identification, returns it as deprecated. *)
Definition flaggedBy (Date_getFullYear : string → option Z) (curators : list string)
    (obs : Observation) (taxonId : Z) : Prop :=
  ∃ i q sink resolution sink',
    firstQualifying curators (identifications obs) = Some (i, q)
    ∧ getConfirmationDateAccountingForTaxonChanges Date_getFullYear i obs sink
        = Ok (resolution, sink')
    ∧ taxonId ∈ deprecatedTaxonIds resolution.

(** Deduplication as the specification words it: going through the list,
    an item is kept when it has not been seen before; [seen] holds the items
    gone through so far. *)
Fixpoint dedupFirstSeen (seen : list Z) (l : list Z) : list Z :=
  match l with
  | [] => []
  | x :: l' =>
      if decide (x ∈ seen) then dedupFirstSeen (seen ++ [x]) l'
      else x :: dedupFirstSeen (seen ++ [x]) l'
  end.

(** The ledger entry a change event gives rise to, and the two-level lookup
    in the ledger. *)
Definition ledgerEntryOf (row : TaxonChangeData) : LedgerEntry :=
  {| le_newSpeciesName := newSpeciesName row; le_taxonChangeId := taxonChangeId row |}.

Definition ledgerLookup (ledger : gmap (option Z) (gmap string LedgerEntry))
    (year : option Z) (priorName : string) : option LedgerEntry :=
  ofYear ← ledger !! year; ofYear !! priorName.

Definition sameLedgerKey (year : option Z) (priorName : string) (row : TaxonChangeData)
    : Prop :=
  yearChanged row = year ∧ previousSpeciesName row = priorName.

Global Instance sameLedgerKey_dec year priorName row :
  Decision (sameLedgerKey year priorName row).
Proof. unfold sameLedgerKey. apply _. Defined.

(** ** Key minimisation *)

(** The module-level state of [getShortestUniqueKey]: the object
    [generatedKeys], the counter [currKeyLength], and the number of strings
    drawn from [nanoid] so far. *)
Record KeyState := {
  generatedKeys : gmap string bool;
  currKeyLength : nat;
  draws : nat;
}.

Section Keys.

(** [nanoid(size)]: the string returned by the [d]-th draw of the random
    generator, when asked for [size] characters. *)
Variable nanoid : nat → nat → string.

(** The names of the members every object inherits; a lookup of such a name
    in [generatedKeys] finds the inherited member, which is truthy, unless
    the object has a property of its own under that name. *)
Variable objectMember : string → bool.

(** The condition [generatedKeys[currKey]]. *)
Definition keyTaken (generated : gmap string bool) (currKey : string) : bool :=
  match generated !! currKey with
  | Some own => own
  | None => objectMember currKey
  end.

(** The loop [for (let i = 0; i < 20; i++)], with [remaining] iterations to
    go; the first component of the result is [key] as the loop leaves it. *)
Fixpoint drawKey (remaining : nat) (st : KeyState) : string * KeyState :=
  match remaining with
  | O => ("", st)
  | S remaining' =>
      let currKey := nanoid (draws st) (currKeyLength st) in
      if negb (keyTaken (generatedKeys st) currKey)
      then (currKey,
            {| generatedKeys := <[currKey := true]> (generatedKeys st);
               currKeyLength := currKeyLength st;
               draws := S (draws st) |})
      else drawKey remaining'
             {| generatedKeys := generatedKeys st;
                currKeyLength := currKeyLength st;
                draws := S (draws st) |}
  end.

(** [getShortestUniqueKey]; [fuel] bounds the depth of the recursion, which
    the source does not.  [if (key)] holds of a string that is not empty. *)
Fixpoint getShortestUniqueKey (fuel : nat) (st : KeyState) : option (string * KeyState) :=
  match fuel with
  | O => None
  | S fuel' =>
      let '(key, st1) := drawKey 20 st in
      if bool_decide (key ≠ "") then Some (key, st1)
      else getShortestUniqueKey fuel'
             {| generatedKeys := generatedKeys st1;
                currKeyLength := S (currKeyLength st1);
                draws := draws st1 |}
  end.

(** A caller asking for [calls] keys, one after the other. *)
Fixpoint generateKeys (calls fuel : nat) (st : KeyState) : option (list string * KeyState) :=
  match calls with
  | O => Some ([], st)
  | S calls' =>
      match getShortestUniqueKey fuel st with
      | Some (key, st1) =>
          match generateKeys calls' fuel st1 with
          | Some (keys, st2) => Some (key :: keys, st2)
          | None => None
          end
      | None => None
      end
  end.

End Keys.

(** ** Specification-side vocabulary for a run *)

(** How the processing of an observation ends, read off the observation
    alone: the species of the earliest qualifying identification is resolved
    first, then its taxon change is checked. *)
Definition observationCheck (curators : list string) (obs : Observation) : Outcome unit :=
  match firstQualifying curators (identifications obs) with
  | None => Ok ()
  | Some (_, q) =>
      match resolveSpecies q with
      | Ok _ =>
          match taxon_change q with
          | Some change => if unknownTaxonChangeType change then ProcessExit else Ok ()
          | None => Ok ()
          end
      | ProcessExit => ProcessExit
      | TypeError => TypeError
      end
  end.

(** The checks of a sequence of observations, stopping at the first that
    fails. *)
Fixpoint observationChecks (curators : list string) (results : list Observation)
    : Outcome unit :=
  match results with
  | [] => Ok ()
  | obs :: results' =>
      match observationCheck curators obs with
      | Ok _ => observationChecks curators results'
      | ProcessExit => ProcessExit
      | TypeError => TypeError
      end
  end.

Definition hasQualifying (curators : list string) (obs : Observation) : bool :=
  match firstQualifying curators (identifications obs) with
  | Some _ => true
  | None => false
  end.

(** The taxon ids an observation adds to the removal list, computed with the
    earlier revision of the resolver. *)
Definition deprecatedBy (curators : list string) (obs : Observation) : list Z :=
  match firstQualifying curators (identifications obs) with
  | Some (i, _) =>
      match Helpers.getConfirmationDateAccountingForTaxonChanges i obs with
      | Ok resolution => deprecatedTaxonIds resolution
      | _ => []
      end
  | None => []
  end.

(** The change events an observation adds to the collector. *)
Definition eventsBy (Date_getFullYear : string → option Z) (curators : list string)
    (obs : Observation) : list TaxonChangeData :=
  match firstQualifying curators (identifications obs) with
  | Some (i, _) =>
      match getConfirmationDateAccountingForTaxonChanges Date_getFullYear i obs [] with
      | Ok (_, events) => events
      | _ => []
      end
  | None => []
  end.

(** What holds of every entry of the aggregate during a run. *)
Definition entryComplete (curators : list string) (seen : list Observation)
    (entry : SpeciesEntry) : Prop :=
  is_Some (speciesName entry)
  ∧ is_Some (taxonomy entry)
  ∧ observations entry ≠ []
  ∧ Forall (fun record =>
              curator record ∈ curators
              ∧ ∃ obs, obs ∈ seen ∧ observationId record = obs_id obs)
           (observations entry).

(** ** Sample data, for the examples *)

Module Sample.

(** A stand-in for the host's date parser: the year is read off the four
    leading digits of an ISO timestamp, [None] ([NaN]) otherwise. *)
Definition digitValue (a : ascii) : option Z :=
  let n := nat_of_ascii a in
  if bool_decide (48 ≤ n ∧ n ≤ 57) then Some (Z.of_nat (n - 48)) else None.

Fixpoint leadingNumber (digits : nat) (s : string) (acc : Z) : option Z :=
  match digits with
  | O => Some acc
  | S digits' =>
      match s with
      | String a s' =>
          match digitValue a with
          | Some d => leadingNumber digits' s' (10 * acc + d)%Z
          | None => None
          end
      | EmptyString => None
      end
  end.

Definition getFullYear (s : string) : option Z := leadingNumber 4 s 0%Z.

(** A coarse stand-in for [getTime]: milliseconds to the start of the year. *)
Definition getTime (d : option string) : option Z :=
  match d with
  | Some s => (fun y => ((y - 1970) * 31556952000)%Z) <$> getFullYear s
  | None => None
  end.

Definition alice : User := {| login := "alice"; name := "Alice"; id := 1%Z |}.
Definition bob : User := {| login := "bob"; name := "Bob"; id := 2%Z |}.
Definition carol : User := {| login := "carol"; name := "Carol"; id := 3%Z |}.

Definition genus : INatTaxonAncestor :=
  {| anc_id := 50%Z; anc_name := "Hemaris"; anc_rank := "genus" |}.
Definition family : INatTaxonAncestor :=
  {| anc_id := 40%Z; anc_name := "Sphingidae"; anc_rank := "family" |}.
Definition parentSpecies : INatTaxonAncestor :=
  {| anc_id := 250%Z; anc_name := "Hemaris thysbe"; anc_rank := "species" |}.

Definition oldTaxon : INatTaxon :=
  {| t_id := 100%Z; t_name := "Hemaris diffinis"; t_rank := "species";
     t_ancestors := [family; genus] |}.
Definition midTaxon : INatTaxon :=
  {| t_id := 150%Z; t_name := "Hemaris aethra"; t_rank := "species";
     t_ancestors := [family; genus] |}.
Definition newTaxon : INatTaxon :=
  {| t_id := 200%Z; t_name := "Hemaris thetis"; t_rank := "species";
     t_ancestors := [family; genus] |}.
Definition subTaxon : INatTaxon :=
  {| t_id := 300%Z; t_name := "Hemaris thysbe cimbiciformis"; t_rank := "subspecies";
     t_ancestors := [family; genus; parentSpecies] |}.
Definition genusTaxon : INatTaxon :=
  {| t_id := 50%Z; t_name := "Hemaris"; t_rank := "genus";
     t_ancestors := [family] |}.

Definition swap1 : TaxonChange := {| tc_id := 9001%Z; tc_type := "TaxonSwap" |}.
Definition swap2 : TaxonChange := {| tc_id := 9002%Z; tc_type := "TaxonMerge" |}.
Definition swap3 : TaxonChange := {| tc_id := 9003%Z; tc_type := "TaxonSplit" |}.
Definition bogus : TaxonChange := {| tc_id := 9009%Z; tc_type := "TaxonDrop" |}.

Definition ident (u : User) (t : INatTaxon) (cur : bool) (date : string)
    (change : option TaxonChange) : Identification :=
  {| user := u; taxon := t; taxon_id := t_id t; current := cur;
     created_at := date; taxon_change := change |}.

Definition observation (n : Z) (ids : list Identification) : Observation :=
  {| obs_id := n; observed_on_details := Some "2019-03-30";
     created_at_details := "2019-03-31"; obs_user := carol;
     identifications := ids |}.

(** alice confirms, bob agrees, then a swap moves alice's identification. *)
Definition aliceFirst := ident alice oldTaxon false "2019-04-01T09:00:00Z" None.
Definition bobAgrees := ident bob oldTaxon true "2019-05-01T09:00:00Z" None.
Definition aliceSwapped := ident alice newTaxon true "2021-06-01T09:00:00Z" (Some swap1).
Definition obsSwap := observation 1%Z [aliceFirst; bobAgrees; aliceSwapped].

(** No taxon change at all. *)
Definition alicePlain := ident alice oldTaxon true "2019-04-01T09:00:00Z" None.
Definition obsPlain := observation 2%Z [bobAgrees; alicePlain].

(** A chain: each of alice's identifications is a taxon change. *)
Definition chain1 := ident alice oldTaxon false "2018-02-01T09:00:00Z" (Some swap3).
Definition chain2 := ident alice midTaxon false "2020-02-01T09:00:00Z" (Some swap2).
Definition chain3 := ident alice newTaxon true "2022-02-01T09:00:00Z" (Some swap1).
Definition obsChain := observation 3%Z [chain1; bobAgrees; chain2; chain3].

(** A change of a kind the resolver does not know. *)
Definition aliceBogus := ident alice newTaxon true "2021-06-01T09:00:00Z" (Some bogus).
Definition obsBogus := observation 4%Z [aliceFirst; aliceBogus].

(** A subspecies identification, and one above species rank. *)
Definition aliceSub := ident alice subTaxon true "2020-07-01T09:00:00Z" None.
Definition aliceGenus := ident alice genusTaxon true "2020-06-01T09:00:00Z" None.
Definition obsSub := observation 5%Z [aliceGenus; aliceSub; alicePlain].

(** Nobody qualifies. *)
Definition obsNone := observation 6%Z [bobAgrees; aliceGenus; aliceFirst].

(** The species of [oldTaxon] again, under another name and with a shorter
    ancestor chain; and an aggregate that already has an entry for it. *)
Definition renamedTaxon : INatTaxon :=
  {| t_id := 100%Z; t_name := "Hemaris diffinis sensu lato"; t_rank := "species";
     t_ancestors := [genus] |}.
Definition aliceRenamed := ident alice renamedTaxon true "2023-01-01T09:00:00Z" None.
Definition obsRenamed := observation 7%Z [aliceRenamed].

Definition knownEntry : SpeciesEntry :=
  {| speciesName := Some "Hemaris diffinis";
     observations := [];
     taxonomy := Some {[ "family" := "Sphingidae" ]} |}.
Definition knownAccumulators : Accumulators :=
  {| processedData := {[ 100%Z := knownEntry ]};
     taxonsToRemove := [];
     taxonChangeData := [] |}.

(** A subspecies whose ancestor chain is empty, identified through a
    change of a kind the resolver does not know. *)
Definition orphanTaxon : INatTaxon :=
  {| t_id := 310%Z; t_name := "Hemaris thysbe uniformis"; t_rank := "subspecies";
     t_ancestors := [] |}.
Definition aliceOrphan := ident alice orphanTaxon true "2022-03-01T09:00:00Z" (Some bogus).
Definition obsOrphan := observation 8%Z [bobAgrees; aliceOrphan].

(** The members an object inherits in Node. *)
Definition objectMember (key : string) : bool :=
  bool_decide (key ∈ ["constructor"; "__defineGetter__"; "__defineSetter__";
                      "hasOwnProperty"; "__lookupGetter__"; "__lookupSetter__";
                      "isPrototypeOf"; "propertyIsEnumerable"; "toString";
                      "valueOf"; "__proto__"; "toLocaleString"]).

(** A swap from a taxon whose name is the name of an inherited member. *)
Definition memberTaxon : INatTaxon :=
  {| t_id := 400%Z; t_name := "constructor"; t_rank := "species";
     t_ancestors := [family; genus] |}.
Definition aliceMember := ident alice memberTaxon false "2019-04-01T09:00:00Z" None.
Definition obsMember := observation 9%Z [aliceMember; aliceSwapped].

(** The ranks of the taxon ids used above. *)
Definition rankOf (taxonId : Z) : string :=
  if bool_decide (taxonId = 300%Z) then "subspecies"
  else if bool_decide (taxonId = 50%Z) then "genus"
  else if bool_decide (taxonId = 40%Z) then "family"
  else "species".

(** A generator that repeats itself: at one character the draws go a, a,
    b, c, c, ...; at other lengths every draw is a run of [x]s. *)
Fixpoint xs (size : nat) : string :=
  match size with
  | O => ""
  | S size' => String "x" (xs size')
  end.

Definition nanoid (d size : nat) : string :=
  if bool_decide (size = 1)
  then match d with
       | 0 | 1 => "a"
       | 2 => "b"
       | _ => "c"
       end
  else xs size.

Definition noMember (key : string) : bool := false.

Definition freshKeys : KeyState :=
  {| generatedKeys := ∅; currKeyLength := 1; draws := 0 |}.

Definition oneKey : KeyState :=
  {| generatedKeys := {[ "a" := true ]}; currKeyLength := 1; draws := 1 |}.

Definition threeKeys : KeyState :=
  {| generatedKeys := {[ "a" := true; "b" := true; "c" := true ]};
     currKeyLength := 1; draws := 3 |}.

Definition curators : list string := ["alice"].
Definition ranks : list string := ["family"; "genus"].

End Sample.

(** ** Facts about the backward walk *)

Section ResolverFacts.

Variable Date_getFullYear : string → option Z.

Lemma curatorHistory_S obs target n ident :
  identifications obs !! n = Some ident →
  curatorHistory obs target (S n) =
    if bool_decide (login (user ident) ≠ target)
    then curatorHistory obs target n
    else ident :: curatorHistory obs target n.
Proof.
  intros Hn. unfold curatorHistory.
  rewrite (take_S_r _ _ _ Hn), reverse_app. simpl.
  rewrite filter_cons.
  case_bool_decide; destruct (decide _); simpl; congruence.
Qed.

Lemma pointer_has_change (ident lastCuratorObservation : Identification) :
  is_Some (taxon_change lastCuratorObservation) →
  is_Some (taxon_change
             (if truthy (taxon_change ident) then ident else lastCuratorObservation)).
Proof. intros H. destruct (taxon_change ident) eqn:E; simpl; [rewrite E; eauto | done]. Qed.

(** The backward walk below the starting position never fails, and its
    two outputs are the events and the history of the curator. *)
Lemma backwardWalk_below obs idx target n lastObs sink collected :
  n ≤ idx → n ≤ length (identifications obs) →
  is_Some (taxon_change lastObs) →
  backwardWalk Date_getFullYear obs idx target n lastObs sink collected =
    Ok (sink ++ walkEvents Date_getFullYear obs lastObs (curatorHistory obs target n),
        collected ++ map historical (curatorHistory obs target n)).
Proof.
  revert lastObs sink collected.
  induction n as [|i IH]; intros lastObs sink collected Hidx Hlen Hchange.
  - unfold curatorHistory. simpl. by rewrite !app_nil_r.
  - destruct (lookup_lt_is_Some_2 (identifications obs) i) as [ident Hi]; [lia|].
    simpl. rewrite Hi. simpl.
    rewrite (curatorHistory_S _ _ _ _ Hi).
    case_bool_decide as Hlogin.
    + apply IH; [lia | lia | done].
    + rewrite bool_decide_eq_true_2 by lia.
      destruct Hchange as [change Hchange]. rewrite Hchange. simpl.
      rewrite IH; [| lia | lia | by apply pointer_has_change; eauto].
      simpl. rewrite Hchange. by rewrite <- !app_assoc.
Qed.

(** The whole walk, from the curator's own identification. *)
Lemma backwardWalk_from_curator obs idx cur sink :
  identifications obs !! idx = Some cur →
  is_Some (taxon_change cur) →
  backwardWalk Date_getFullYear obs idx (login (user cur)) (S idx) cur sink [] =
    Ok (sink ++ walkEvents Date_getFullYear obs cur (curatorHistory obs (login (user cur)) idx),
        map historical (cur :: curatorHistory obs (login (user cur)) idx)).
Proof.
  intros Hidx Hchange. simpl. rewrite Hidx. simpl.
  rewrite bool_decide_eq_false_2 by (intros H; by apply H).
  rewrite bool_decide_eq_false_2 by (intros H; by apply H).
  simpl. apply lookup_lt_Some in Hidx.
  rewrite backwardWalk_below; [done | lia | lia | done].
Qed.

Lemma helpers_backwardWalk_spec obs target n collected :
  n ≤ length (identifications obs) →
  Helpers.backwardWalk obs target n collected =
    Ok (collected ++ map historical (curatorHistory obs target n)).
Proof.
  revert collected. induction n as [|i IH]; intros collected Hlen.
  - unfold curatorHistory. simpl. by rewrite app_nil_r.
  - destruct (lookup_lt_is_Some_2 (identifications obs) i) as [ident Hi]; [lia|].
    simpl. rewrite Hi. simpl. rewrite (curatorHistory_S _ _ _ _ Hi).
    case_bool_decide.
    + apply IH. lia.
    + rewrite IH by lia. simpl. by rewrite <- app_assoc.
Qed.

Lemma curatorHistory_S_own obs idx cur :
  identifications obs !! idx = Some cur →
  curatorHistory obs (login (user cur)) (S idx) =
    cur :: curatorHistory obs (login (user cur)) idx.
Proof.
  intros H. rewrite (curatorHistory_S _ _ _ _ H).
  by rewrite bool_decide_eq_false_2 by (intros E; by apply E).
Qed.

End ResolverFacts.

(** ** Facts about the forward scan *)

Lemma forwardScan_head h l :
  isTaxonChange h = true → forwardScan 0 (h :: l) [] = forwardScan 1 l [].
Proof. intros Hh. simpl. by rewrite Hh. Qed.

Lemma forwardScan_changes i changes rest deprecated :
  Forall (fun h => isTaxonChange h = true) changes →
  forwardScan (S i) (changes ++ rest) deprecated =
    forwardScan (S (i + length changes)) rest (deprecated ++ map taxonId changes).
Proof.
  intros Hall. revert i deprecated.
  induction Hall as [|h changes Hh _ IH]; intros i deprecated.
  - simpl. by rewrite Nat.add_0_r, app_nil_r.
  - simpl. rewrite Hh. simpl. rewrite IH.
    replace (S i + length changes) with (i + S (length changes)) by lia.
    by rewrite <- app_assoc.
Qed.

Lemma forwardScan_stop i original rest deprecated :
  isTaxonChange original = false →
  forwardScan (S i) (original :: rest) deprecated =
    {| deprecatedTaxonIds := deprecated ++ [taxonId original];
       originalConfirmationDate := Some (confirmationDate original) |}.
Proof. intros Ho. simpl. by rewrite Ho. Qed.

(** The scan of a list that starts with a change and whose first entry that
    is not a change is [original]. *)
Lemma forwardScan_first_original changes original rest :
  changes ≠ [] →
  Forall (fun h => isTaxonChange h = true) changes →
  isTaxonChange original = false →
  forwardScan 0 (changes ++ original :: rest) [] =
    {| deprecatedTaxonIds := drop 1 (map taxonId (changes ++ [original]));
       originalConfirmationDate := Some (confirmationDate original) |}.
Proof.
  intros Hne Hall Ho. destruct changes as [|h changes]; [done|].
  apply Forall_cons in Hall as [Hh Hall].
  simpl. rewrite Hh. simpl.
  rewrite forwardScan_changes by done. rewrite forwardScan_stop by done.
  simpl. rewrite drop_0. by rewrite map_app.
Qed.

(** The scan of a list of changes only. *)
Lemma forwardScan_all_changes collected :
  Forall (fun h => isTaxonChange h = true) collected →
  forwardScan 0 collected [] =
    {| deprecatedTaxonIds := drop 1 (map taxonId collected);
       originalConfirmationDate := None |}.
Proof.
  intros Hall. destruct collected as [|h collected]; [done|].
  apply Forall_cons in Hall as [Hh Hall].
  simpl. rewrite Hh. simpl.
  rewrite <- (app_nil_r collected) at 1.
  rewrite forwardScan_changes by done. simpl. by rewrite drop_0.
Qed.

(** ** The resolver in closed form *)

Section ResolverClosedForm.

Variable Date_getFullYear : string → option Z.

Lemma resolver_no_change idx obs cur sink :
  identifications obs !! idx = Some cur →
  taxon_change cur = None →
  getConfirmationDateAccountingForTaxonChanges Date_getFullYear idx obs sink =
    Ok ({| deprecatedTaxonIds := [];
           originalConfirmationDate := Some (created_at cur) |}, sink).
Proof.
  intros Hidx Hnone. unfold getConfirmationDateAccountingForTaxonChanges.
  rewrite Hidx. simpl. by rewrite Hnone.
Qed.

Lemma resolver_known_change idx obs cur change sink :
  identifications obs !! idx = Some cur →
  taxon_change cur = Some change →
  unknownTaxonChangeType change = false →
  getConfirmationDateAccountingForTaxonChanges Date_getFullYear idx obs sink =
    Ok (forwardScan 0
          (map historical (curatorHistory obs (login (user cur)) (S idx))) [],
        sink ++ walkEvents Date_getFullYear obs cur
                  (curatorHistory obs (login (user cur)) idx)).
Proof.
  intros Hidx Hchange Hknown. unfold getConfirmationDateAccountingForTaxonChanges.
  rewrite Hidx. cbn -[backwardWalk]. rewrite Hchange, Hknown.
  rewrite backwardWalk_from_curator by (rewrite ?Hchange; eauto).
  cbn -[curatorHistory]. by rewrite (curatorHistory_S_own _ _ _ Hidx).
Qed.

Lemma resolver_unknown_change idx obs cur change sink :
  identifications obs !! idx = Some cur →
  taxon_change cur = Some change →
  unknownTaxonChangeType change = true →
  getConfirmationDateAccountingForTaxonChanges Date_getFullYear idx obs sink =
    ProcessExit.
Proof.
  intros Hidx Hchange Hunknown. unfold getConfirmationDateAccountingForTaxonChanges.
  rewrite Hidx. simpl. by rewrite Hchange, Hunknown.
Qed.

Lemma resolver_out_of_range idx obs sink :
  identifications obs !! idx = None →
  getConfirmationDateAccountingForTaxonChanges Date_getFullYear idx obs sink =
    TypeError.
Proof.
  intros Hidx. unfold getConfirmationDateAccountingForTaxonChanges.
  by rewrite Hidx.
Qed.

(** The earlier revision computes the same resolution. *)
Lemma helpers_resolver_agrees idx obs sink :
  Helpers.getConfirmationDateAccountingForTaxonChanges idx obs =
    fst <$> getConfirmationDateAccountingForTaxonChanges Date_getFullYear idx obs sink.
Proof.
  destruct (identifications obs !! idx) as [cur|] eqn:Hidx.
  - destruct (taxon_change cur) as [change|] eqn:Hchange.
    + destruct (unknownTaxonChangeType change) eqn:Hknown.
      * rewrite (resolver_unknown_change _ _ _ _ _ Hidx Hchange Hknown).
        unfold Helpers.getConfirmationDateAccountingForTaxonChanges.
        rewrite Hidx. simpl. by rewrite Hchange, Hknown.
      * rewrite (resolver_known_change _ _ _ _ _ Hidx Hchange Hknown).
        unfold Helpers.getConfirmationDateAccountingForTaxonChanges.
        rewrite Hidx. cbn -[Helpers.backwardWalk]. rewrite Hchange, Hknown.
        rewrite helpers_backwardWalk_spec by (apply lookup_lt_Some in Hidx; lia).
        done.
    + rewrite (resolver_no_change _ _ _ _ Hidx Hchange).
      unfold Helpers.getConfirmationDateAccountingForTaxonChanges.
      rewrite Hidx. simpl. by rewrite Hchange.
  - rewrite (resolver_out_of_range _ _ _ Hidx).
    unfold Helpers.getConfirmationDateAccountingForTaxonChanges. by rewrite Hidx.
Qed.

End ResolverClosedForm.

(** ** The resolver: no taxon change *)

(** C3: when the identification at [curatorIdentificationIndex] carries no
    taxon-change record, the resolver returns an empty deprecated list and
    that identification's own creation date, and the event sink is as it
    was; both revisions of the resolver agree on the result. *)
Theorem no_taxon_change_returns_own_date
    (Date_getFullYear : string → option Z) (idx : nat) (obs : Observation)
    (cur : Identification) (sink : list TaxonChangeData) :
  identifications obs !! idx = Some cur →
  taxon_change cur = None →
  getConfirmationDateAccountingForTaxonChanges Date_getFullYear idx obs sink =
    Ok ({| deprecatedTaxonIds := [];
           originalConfirmationDate := Some (created_at cur) |}, sink)
  ∧ Helpers.getConfirmationDateAccountingForTaxonChanges idx obs =
      Ok {| deprecatedTaxonIds := [];
            originalConfirmationDate := Some (created_at cur) |}.
Proof.
  intros Hidx Hnone. split.
  - by apply resolver_no_change.
  - rewrite (helpers_resolver_agrees Date_getFullYear idx obs sink).
    by rewrite (resolver_no_change _ _ _ _ _ Hidx Hnone).
Qed.

Lemma no_taxon_change_returns_own_date_witness :
  getConfirmationDateAccountingForTaxonChanges Sample.getFullYear 1 Sample.obsPlain [] =
    Ok ({| deprecatedTaxonIds := [];
           originalConfirmationDate := Some "2019-04-01T09:00:00Z" |}, [])
  ∧ Helpers.getConfirmationDateAccountingForTaxonChanges 1 Sample.obsPlain =
      Ok {| deprecatedTaxonIds := [];
            originalConfirmationDate := Some "2019-04-01T09:00:00Z" |}.
Proof.
  apply (no_taxon_change_returns_own_date Sample.getFullYear 1 Sample.obsPlain
           Sample.alicePlain []); reflexivity.
Defined.

(** ** The resolver: the forward scan *)

Lemma history_starts_with_change obs idx cur change changes original rest :
  identifications obs !! idx = Some cur →
  taxon_change cur = Some change →
  map historical (curatorHistory obs (login (user cur)) (S idx)) =
    changes ++ original :: rest →
  isTaxonChange original = false →
  changes ≠ [].
Proof.
  intros Hidx Hchange Hsplit Horig ->.
  rewrite (curatorHistory_S_own _ _ _ Hidx) in Hsplit. simpl in Hsplit.
  injection Hsplit as Hhead _. subst original.
  simpl in Horig. by rewrite Hchange in Horig.
Qed.

Lemma filter_none {A : Type} (P : A → Prop) `{∀ x, Decision (P x)} (l : list A) :
  Forall (fun x => ¬ P x) l → filter P l = [].
Proof.
  induction 1 as [|x l Hx _ IH]; [done|].
  rewrite filter_cons. by destruct (decide (P x)).
Qed.

Lemma nearest_prior_history obs idx cur before prior between :
  take idx (identifications obs) = before ++ prior :: between →
  login (user prior) = login (user cur) →
  Forall (fun x => login (user x) ≠ login (user cur)) between →
  curatorHistory obs (login (user cur)) idx =
    prior :: filter (fun x => login (user x) = login (user cur)) (reverse before).
Proof.
  intros Htake Hlogin Hbetween. unfold curatorHistory.
  rewrite Htake, reverse_app, reverse_cons, <- app_assoc, filter_app.
  rewrite (filter_none _ (reverse between)) by by apply Forall_reverse.
  simpl. rewrite filter_cons. by destruct (decide _).
Qed.

(** C1: for a valid index whose identification carries a recognised taxon
    change, let [collected] be the curator's identifications up to the index,
    newest first.  If the first entry of [collected] that is not a taxon
    change is [original] (the entries [changes] before it all being
    changes), the resolver returns as deprecated the taxon ids of all the
    entries up to and including [original] except the one at position 0, and
    [original]'s creation date as the original confirmation date.  In
    particular, when the nearest earlier identification of the curator is
    not a change, the deprecated list is exactly that identification's taxon
    id and the date is its creation date.  Both revisions of the resolver
    agree. *)
Theorem forward_scan_deprecates_up_to_original
    (Date_getFullYear : string → option Z) (idx : nat) (obs : Observation)
    (cur : Identification) (change : TaxonChange) (sink : list TaxonChangeData) :
  identifications obs !! idx = Some cur →
  taxon_change cur = Some change →
  unknownTaxonChangeType change = false →
  (∀ changes original rest,
     map historical (curatorHistory obs (login (user cur)) (S idx)) =
       changes ++ original :: rest →
     Forall (fun h => isTaxonChange h = true) changes →
     isTaxonChange original = false →
     let resolution :=
       {| deprecatedTaxonIds := drop 1 (map taxonId (changes ++ [original]));
          originalConfirmationDate := Some (confirmationDate original) |} in
     fst <$> getConfirmationDateAccountingForTaxonChanges Date_getFullYear idx obs sink
       = Ok resolution
     ∧ Helpers.getConfirmationDateAccountingForTaxonChanges idx obs = Ok resolution)
  ∧
  (∀ before prior between,
     take idx (identifications obs) = before ++ prior :: between →
     login (user prior) = login (user cur) →
     taxon_change prior = None →
     Forall (fun x => login (user x) ≠ login (user cur)) between →
     let resolution :=
       {| deprecatedTaxonIds := [taxon_id prior];
          originalConfirmationDate := Some (created_at prior) |} in
     fst <$> getConfirmationDateAccountingForTaxonChanges Date_getFullYear idx obs sink
       = Ok resolution
     ∧ Helpers.getConfirmationDateAccountingForTaxonChanges idx obs = Ok resolution).
Proof.
  intros Hidx Hchange Hknown.
  assert (Hgeneral : ∀ changes original rest,
     map historical (curatorHistory obs (login (user cur)) (S idx)) =
       changes ++ original :: rest →
     Forall (fun h => isTaxonChange h = true) changes →
     isTaxonChange original = false →
     fst <$> getConfirmationDateAccountingForTaxonChanges Date_getFullYear idx obs sink
       = Ok {| deprecatedTaxonIds := drop 1 (map taxonId (changes ++ [original]));
               originalConfirmationDate := Some (confirmationDate original) |}).
  { intros changes original rest Hsplit Hall Horig.
    rewrite (resolver_known_change _ _ _ _ _ _ Hidx Hchange Hknown).
    rewrite Hsplit. cbn -[forwardScan].
    rewrite forwardScan_first_original; [done | | done | done].
    by eapply history_starts_with_change. }
  split.
  - intros changes original rest Hsplit Hall Horig resolution. split.
    + by eapply Hgeneral.
    + rewrite (helpers_resolver_agrees Date_getFullYear idx obs sink).
      by eapply Hgeneral.
  - intros before prior between Htake Hlogin Hnone Hbetween resolution.
    assert (Hres : fst <$> getConfirmationDateAccountingForTaxonChanges
                             Date_getFullYear idx obs sink = Ok resolution).
    { apply (Hgeneral [historical cur] (historical prior)
               (map historical
                  (filter (fun x => login (user x) = login (user cur)) (reverse before)))).
      - rewrite (curatorHistory_S_own _ _ _ Hidx).
        by rewrite (nearest_prior_history _ _ _ _ _ _ Htake Hlogin Hbetween).
      - constructor; [|constructor]. simpl. by rewrite Hchange.
      - simpl. by rewrite Hnone. }
    split; [done|].
    by rewrite (helpers_resolver_agrees Date_getFullYear idx obs sink).
Qed.

Lemma forward_scan_deprecates_up_to_original_witness :
  let resolution :=
    {| deprecatedTaxonIds := [100%Z];
       originalConfirmationDate := Some "2019-04-01T09:00:00Z" |} in
  (fst <$> getConfirmationDateAccountingForTaxonChanges Sample.getFullYear 2
             Sample.obsSwap [] = Ok resolution
   ∧ Helpers.getConfirmationDateAccountingForTaxonChanges 2 Sample.obsSwap
       = Ok resolution)
  ∧ (fst <$> getConfirmationDateAccountingForTaxonChanges Sample.getFullYear 2
               Sample.obsSwap [] = Ok resolution
     ∧ Helpers.getConfirmationDateAccountingForTaxonChanges 2 Sample.obsSwap
         = Ok resolution).
Proof.
  pose proof (forward_scan_deprecates_up_to_original Sample.getFullYear 2
                Sample.obsSwap Sample.aliceSwapped Sample.swap1 []
                eq_refl eq_refl eq_refl) as [Hgeneral Hswap].
  split.
  - apply (Hgeneral [historical Sample.aliceSwapped] (historical Sample.aliceFirst) []);
      [reflexivity | repeat constructor | reflexivity].
  - apply (Hswap [] Sample.aliceFirst [Sample.bobAgrees]);
      [reflexivity | reflexivity | reflexivity | repeat constructor; discriminate].
Defined.

(** C4: when the identification at the index carries a recognised taxon
    change and every identification of the curator from the index back to
    the start of the history is itself a taxon change, the resolver returns
    with [originalConfirmationDate] never assigned; the deprecated list then
    holds the taxon ids of all the curator's earlier identifications. *)
Theorem chain_to_start_leaves_date_unset
    (Date_getFullYear : string → option Z) (idx : nat) (obs : Observation)
    (cur : Identification) (change : TaxonChange) (sink : list TaxonChangeData) :
  identifications obs !! idx = Some cur →
  taxon_change cur = Some change →
  unknownTaxonChangeType change = false →
  Forall (fun ident => is_Some (taxon_change ident))
         (curatorHistory obs (login (user cur)) (S idx)) →
  fst <$> getConfirmationDateAccountingForTaxonChanges Date_getFullYear idx obs sink =
    Ok {| deprecatedTaxonIds :=
            map taxon_id (curatorHistory obs (login (user cur)) idx);
          originalConfirmationDate := None |}.
Proof.
  intros Hidx Hchange Hknown Hall.
  rewrite (resolver_known_change _ _ _ _ _ _ Hidx Hchange Hknown).
  cbn -[forwardScan curatorHistory].
  rewrite forwardScan_all_changes.
  - rewrite (curatorHistory_S_own _ _ _ Hidx). simpl. rewrite drop_0.
    by rewrite map_map.
  - apply Forall_map. eapply Forall_impl; [exact Hall|].
    intros ident [c Hc]. simpl. by rewrite Hc.
Qed.

Lemma chain_to_start_leaves_date_unset_witness :
  fst <$> getConfirmationDateAccountingForTaxonChanges Sample.getFullYear 3
            Sample.obsChain [] =
    Ok {| deprecatedTaxonIds := [150%Z; 100%Z]; originalConfirmationDate := None |}.
Proof.
  apply (chain_to_start_leaves_date_unset Sample.getFullYear 3 Sample.obsChain
           Sample.chain3 Sample.swap1 [] eq_refl eq_refl eq_refl).
  repeat constructor; eexists; reflexivity.
Defined.

(** ** The resolver: the events of the backward walk *)

Section WalkEvents.

Variable Date_getFullYear : string → option Z.

Lemma pointerAfter_cons start ident earlier k :
  pointerAfter start (ident :: earlier) (S k) =
    pointerAfter (if truthy (taxon_change ident) then ident else start) earlier k.
Proof. reflexivity. Qed.

Lemma walkEvents_length obs lastObs earlier :
  is_Some (taxon_change lastObs) →
  length (walkEvents Date_getFullYear obs lastObs earlier) = length earlier.
Proof.
  revert lastObs. induction earlier as [|ident earlier IH]; intros lastObs Hlast; [done|].
  simpl. destruct Hlast as [change Hlast]. rewrite Hlast. simpl.
  rewrite IH; [done|]. apply pointer_has_change. eauto.
Qed.

Lemma walkEvents_lookup obs lastObs earlier k ident :
  is_Some (taxon_change lastObs) →
  earlier !! k = Some ident →
  ∃ lastChange,
    taxon_change (pointerAfter lastObs earlier k) = Some lastChange
    ∧ walkEvents Date_getFullYear obs lastObs earlier !! k =
        Some {| tcd_id := obs_id obs;
                previousSpeciesName := t_name (taxon ident);
                newSpeciesName := t_name (taxon (pointerAfter lastObs earlier k));
                yearChanged :=
                  Date_getFullYear (created_at (pointerAfter lastObs earlier k));
                taxonChangeId := tc_id lastChange |}.
Proof.
  revert lastObs k.
  induction earlier as [|head earlier IH]; intros lastObs k Hlast Hk; [done|].
  destruct Hlast as [change Hlast].
  destruct k as [|k].
  - injection Hk as ->. exists change. simpl. by rewrite Hlast.
  - simpl in Hk. rewrite pointerAfter_cons. simpl. rewrite Hlast. simpl.
    apply IH; [|done]. apply pointer_has_change. eauto.
Qed.

(** In a chain of changes the pointer is always the entry met just before. *)
Lemma pointerAfter_chain start earlier k later :
  Forall (fun ident => is_Some (taxon_change ident)) earlier →
  (start :: earlier) !! k = Some later →
  pointerAfter start earlier k = later.
Proof.
  intros Hall. revert start k.
  induction Hall as [|head earlier [c Hhead] _ IH]; intros start k Hk.
  - destruct k; [by injection Hk | done].
  - destruct k as [|k]; [by injection Hk|].
    rewrite pointerAfter_cons, Hhead. simpl. by apply IH.
Qed.

End WalkEvents.

(** C2: for a valid index whose identification carries a recognised taxon
    change, let [earlier] be the curator's identifications strictly before
    the index, newest first.  The resolver appends to the sink exactly one
    event per entry of [earlier], in that order; the event for the entry at
    position [k] has that entry's taxon name as prior name, and as new name,
    year and change id those of the "last curator observation" at that
    moment, which is the pointer after the first [k] entries.  Consequently,
    when the curator's identifications form a chain of taxon changes, the
    event at position [k] pairs two consecutive identifications of the chain:
    the prior one and the one made just after it. *)
Theorem backward_walk_emits_one_event_per_earlier_identification
    (Date_getFullYear : string → option Z) (idx : nat) (obs : Observation)
    (cur : Identification) (change : TaxonChange) (sink : list TaxonChangeData) :
  identifications obs !! idx = Some cur →
  taxon_change cur = Some change →
  unknownTaxonChangeType change = false →
  let earlier := curatorHistory obs (login (user cur)) idx in
  ∃ resolution events,
    getConfirmationDateAccountingForTaxonChanges Date_getFullYear idx obs sink =
      Ok (resolution, sink ++ events)
    ∧ length events = length earlier
    ∧ (∀ k ident,
         earlier !! k = Some ident →
         let lastCuratorObservation := pointerAfter cur earlier k in
         ∃ lastChange,
           taxon_change lastCuratorObservation = Some lastChange
           ∧ events !! k =
               Some {| tcd_id := obs_id obs;
                       previousSpeciesName := t_name (taxon ident);
                       newSpeciesName := t_name (taxon lastCuratorObservation);
                       yearChanged :=
                         Date_getFullYear (created_at lastCuratorObservation);
                       taxonChangeId := tc_id lastChange |})
    ∧ (Forall (fun ident => is_Some (taxon_change ident)) earlier →
       length events = length (cur :: earlier) - 1
       ∧ ∀ k later prior,
           (cur :: earlier) !! k = Some later →
           (cur :: earlier) !! S k = Some prior →
           ∃ laterChange,
             taxon_change later = Some laterChange
             ∧ events !! k =
                 Some {| tcd_id := obs_id obs;
                         previousSpeciesName := t_name (taxon prior);
                         newSpeciesName := t_name (taxon later);
                         yearChanged := Date_getFullYear (created_at later);
                         taxonChangeId := tc_id laterChange |}).
Proof.
  intros Hidx Hchange Hknown earlier.
  assert (Hcur : is_Some (taxon_change cur)) by (rewrite Hchange; eauto).
  eexists _, (walkEvents Date_getFullYear obs cur earlier).
  split; [by apply (resolver_known_change _ _ _ _ _ _ Hidx Hchange Hknown)|].
  split; [by apply walkEvents_length|].
  split.
  - intros k ident Hk lastObs. by apply walkEvents_lookup.
  - intros Hchain. split.
    + rewrite walkEvents_length by done. simpl. lia.
    + intros k later prior Hlater Hprior.
      destruct (walkEvents_lookup Date_getFullYear obs cur earlier k prior Hcur Hprior)
        as (lastChange & Hlast & Hevent).
      rewrite (pointerAfter_chain _ _ _ _ Hchain Hlater) in Hlast, Hevent.
      eauto.
Qed.

Lemma backward_walk_emits_one_event_per_earlier_identification_witness :
  ∃ resolution events,
    getConfirmationDateAccountingForTaxonChanges Sample.getFullYear 3
      Sample.obsChain [] = Ok (resolution, [] ++ events)
    ∧ length events = 2
    ∧ events !! 0 =
        Some {| tcd_id := 3%Z;
                previousSpeciesName := "Hemaris aethra";
                newSpeciesName := "Hemaris thetis";
                yearChanged := Some 2022%Z;
                taxonChangeId := 9001%Z |}
    ∧ events !! 1 =
        Some {| tcd_id := 3%Z;
                previousSpeciesName := "Hemaris diffinis";
                newSpeciesName := "Hemaris aethra";
                yearChanged := Some 2020%Z;
                taxonChangeId := 9002%Z |}.
Proof.
  destruct (backward_walk_emits_one_event_per_earlier_identification
              Sample.getFullYear 3 Sample.obsChain Sample.chain3 Sample.swap1 []
              eq_refl eq_refl eq_refl)
    as (resolution & events & Hrun & Hlen & _ & Hchain).
  exists resolution, events.
  destruct Hchain as [_ Hpairs]; [repeat constructor; eexists; reflexivity|].
  split; [exact Hrun|]. split; [exact Hlen|]. split.
  - destruct (Hpairs 0 Sample.chain3 Sample.chain2 eq_refl eq_refl)
      as (c & Hc & Hev).
    injection Hc as <-. exact Hev.
  - destruct (Hpairs 1 Sample.chain2 Sample.chain1 eq_refl eq_refl)
      as (c & Hc & Hev).
    injection Hc as <-. exact Hev.
Defined.

(** ** Facts about [indexOf] *)

Lemma indexOf_lower_bound {A : Type} `{EqDecision A} (l : list A) (x : A) :
  (-1 ≤ indexOf l x)%Z.
Proof.
  induction l as [|y l IH]; simpl; [lia|].
  destruct (decide (y = x)); [lia|]. destruct (decide _); lia.
Qed.

Lemma indexOf_absent {A : Type} `{EqDecision A} (l : list A) (x : A) :
  indexOf l x = (-1)%Z ↔ x ∉ l.
Proof.
  induction l as [|y l IH]; simpl.
  - split; [intros _; apply not_elem_of_nil | done].
  - rewrite not_elem_of_cons. destruct (decide (y = x)) as [->|Hne].
    + split; [lia | intros [? _]; done].
    + pose proof (indexOf_lower_bound l x).
      destruct (decide (indexOf l x = (-1)%Z)) as [Habs|Hpres].
      * split; [intros _; split; [done | by apply IH] | done].
      * split; [lia | intros [_ Hx]; by apply IH in Hx].
Qed.

(** In [prefix ++ x :: suffix], the first position of [x] is the length of
    [prefix] exactly when [x] does not occur in [prefix]. *)
Lemma indexOf_own_position {A : Type} `{EqDecision A} (prefix suffix : list A) (x : A) :
  indexOf (prefix ++ x :: suffix) x = Z.of_nat (length prefix) ↔ x ∉ prefix.
Proof.
  induction prefix as [|y prefix IH]; simpl.
  - rewrite decide_True by done. split; [intros _; apply not_elem_of_nil | done].
  - rewrite not_elem_of_cons. destruct (decide (y = x)) as [->|Hne].
    + split; [lia | intros [? _]; done].
    + pose proof (indexOf_lower_bound (prefix ++ x :: suffix) x).
      destruct (decide _) as [Habs|Hpres].
      * apply indexOf_absent in Habs. exfalso. apply Habs.
        apply elem_of_app. right. apply list_elem_of_here.
      * split.
        -- intros Hpos. split; [done|]. apply IH. lia.
        -- intros [_ Hx]. apply IH in Hx. lia.
Qed.

Lemma unknownTaxonChangeType_spec (change : TaxonChange) :
  unknownTaxonChangeType change = true ↔ tc_type change ∉ knownTaxonChangeTypes.
Proof.
  unfold unknownTaxonChangeType. rewrite bool_decide_eq_true. apply indexOf_absent.
Qed.

(** ** The scanner in closed form *)

Section ScannerFacts.

Variable Date_getFullYear : string → option Z.
Variable Date_getTime : option string → option Z.

Local Abbreviation observationRecord := (observationRecord Date_getTime).
Local Abbreviation recorded := (recorded Date_getTime).
Local Abbreviation recordIdentification := (recordIdentification Date_getFullYear Date_getTime).
Local Abbreviation scanIdentifications := (scanIdentifications Date_getFullYear Date_getTime).
Local Abbreviation parseObservation := (parseObservation Date_getFullYear Date_getTime).
Local Abbreviation parseDataFile := (parseDataFile Date_getFullYear Date_getTime).
Local Abbreviation parsePackets := (parsePackets Date_getFullYear Date_getTime).

(** The three [continue] tests are the negation of [qualifies]. *)
Lemma scanIdentifications_cons curators ranks obs i ident rest acc :
  scanIdentifications curators ranks obs i (ident :: rest) acc =
    if qualifies curators ident
    then '(curatorTaxonId, acc') ← recordIdentification ranks obs i ident acc;
         Ok (Some curatorTaxonId, acc')
    else scanIdentifications curators ranks obs (S i) rest acc.
Proof.
  unfold qualifies. simpl.
  destruct (current ident), (includes curators (login (user ident))); simpl; try done.
  by destruct (bool_decide _ && bool_decide _).
Qed.

Lemma scanIdentifications_closed curators ranks obs i ids acc :
  scanIdentifications curators ranks obs i ids acc =
    match firstQualifying curators ids with
    | Some (k, ident) =>
        '(curatorTaxonId, acc') ← recordIdentification ranks obs (i + k) ident acc;
        Ok (Some curatorTaxonId, acc')
    | None => Ok (None, acc)
    end.
Proof.
  revert i. induction ids as [|ident ids IH]; intros i; [done|].
  rewrite scanIdentifications_cons. unfold firstQualifying in *. simpl.
  destruct (qualifies curators ident) eqn:Hq.
  - destruct (decide (true = true)) as [_|]; [|done]. by rewrite Nat.add_0_r.
  - destruct (decide (false = true)) as [Hft|_]; [discriminate Hft|]. rewrite IH.
    destruct (list_find _ ids) as [[k ident']|]; simpl; [|done].
    by rewrite Nat.add_succ_r.
Qed.

Lemma recordIdentification_ok ranks obs i ident acc sid sname resolution sink :
  resolveSpecies ident = Ok (sid, sname) →
  getConfirmationDateAccountingForTaxonChanges Date_getFullYear i obs
    (taxonChangeData acc) = Ok (resolution, sink) →
  recordIdentification ranks obs i ident acc =
    Ok (sid, recorded ranks obs ident acc sid sname resolution sink).
Proof.
  intros Hspecies Hresolve. unfold recordIdentification, recorded.
  rewrite Hspecies. cbn -[getConfirmationDateAccountingForTaxonChanges].
  rewrite Hresolve. cbn.
  destruct (processedData acc !! sid) as [entry|] eqn:Hentry; cbn.
  - by rewrite Hentry.
  - rewrite lookup_insert_eq. cbn. by rewrite insert_insert_eq.
Qed.

Lemma recordIdentification_inv ranks obs i ident acc sid acc' :
  recordIdentification ranks obs i ident acc = Ok (sid, acc') →
  ∃ sname resolution,
    resolveSpecies ident = Ok (sid, sname)
    ∧ getConfirmationDateAccountingForTaxonChanges Date_getFullYear i obs
        (taxonChangeData acc) = Ok (resolution, taxonChangeData acc')
    ∧ acc' = recorded ranks obs ident acc sid sname resolution (taxonChangeData acc').
Proof.
  intros Hrun.
  destruct (resolveSpecies ident) as [[sid0 sname]| |] eqn:Hspecies;
    [| by unfold recordIdentification in Hrun; rewrite Hspecies in Hrun..].
  destruct (getConfirmationDateAccountingForTaxonChanges Date_getFullYear i obs
              (taxonChangeData acc)) as [[resolution sink]| |] eqn:Hresolve;
    [| by unfold recordIdentification in Hrun; rewrite Hspecies in Hrun;
          cbn -[getConfirmationDateAccountingForTaxonChanges] in Hrun;
          rewrite Hresolve in Hrun..].
  rewrite (recordIdentification_ok _ _ _ _ _ _ _ _ _ Hspecies Hresolve) in Hrun.
  injection Hrun as -> <-. by exists sname, resolution.
Qed.

(** The cleanup after the loop finds at least one record and deletes
    nothing. *)
Lemma parseObservation_closed curators ranks acc obs :
  parseObservation curators ranks acc obs =
    match firstQualifying curators (identifications obs) with
    | Some (k, ident) => snd <$> recordIdentification ranks obs k ident acc
    | None => Ok acc
    end.
Proof.
  unfold parseObservation. rewrite scanIdentifications_closed.
  destruct (firstQualifying curators (identifications obs)) as [[k ident]|]; [|done].
  simpl.
  destruct (recordIdentification ranks obs k ident acc) as [[sid acc']| |] eqn:Hrec;
    [|done..].
  apply recordIdentification_inv in Hrec as (sname & resolution & _ & _ & Hacc).
  cbn. case_bool_decide; [|done].
  rewrite Hacc. cbn. rewrite lookup_insert_eq. cbn.
  rewrite length_app. cbn.
  rewrite bool_decide_eq_false_2 by lia. done.
Qed.

Lemma parseDataFile_app results1 results2 curators ranks acc :
  parseDataFile (results1 ++ results2) curators ranks acc =
    acc' ← parseDataFile results1 curators ranks acc;
    parseDataFile results2 curators ranks acc'.
Proof.
  revert acc. induction results1 as [|obs results1 IH]; intros acc; [done|].
  simpl. destruct (parseObservation curators ranks acc obs); simpl; [apply IH|done..].
Qed.

(** Reading the packets one after the other is reading their
    concatenation. *)
Lemma parsePackets_concat packets curators ranks acc :
  parsePackets packets curators ranks acc =
    parseDataFile (concat packets) curators ranks acc.
Proof.
  revert acc. induction packets as [|results packets IH]; intros acc; [done|].
  simpl. rewrite parseDataFile_app.
  destruct (parseDataFile results curators ranks acc); simpl; [apply IH|done..].
Qed.

(** A run stops with [process.exit] exactly at the first observation whose
    processing does. *)
Lemma parseDataFile_exit_iff results curators ranks acc :
  parseDataFile results curators ranks acc = ProcessExit ↔
  ∃ before obs after acc',
    results = before ++ obs :: after
    ∧ parseDataFile before curators ranks acc = Ok acc'
    ∧ parseObservation curators ranks acc' obs = ProcessExit.
Proof.
  revert acc. induction results as [|obs results IH]; intros acc.
  - split; [done|]. intros (before & o & after & acc' & Hsplit & _).
    by destruct before.
  - simpl. destruct (parseObservation curators ranks acc obs) as [acc1| |] eqn:Hobs;
      simpl.
    + rewrite IH. split.
      * intros (before & o & after & acc' & -> & Hbefore & Hexit).
        exists (obs :: before), o, after, acc'. simpl. rewrite Hobs. simpl. eauto.
      * intros (before & o & after & acc' & Hsplit & Hbefore & Hexit).
        destruct before as [|b before]; simpl in *.
        -- injection Hsplit as <- <-. injection Hbefore as <-. congruence.
        -- injection Hsplit as <- ->. rewrite Hobs in Hbefore. simpl in Hbefore.
           exists before, o, after, acc'. eauto.
    + split; [|done]. intros _. exists [], obs, results, acc. eauto.
    + split; [done|]. intros (before & o & after & acc' & Hsplit & Hbefore & Hexit).
      destruct before as [|b before]; simpl in *.
      * injection Hsplit as <- <-. injection Hbefore as <-. congruence.
      * injection Hsplit as <- ->. rewrite Hobs in Hbefore. done.
Qed.

Lemma resolveSpecies_not_exit ident : resolveSpecies ident ≠ ProcessExit.
Proof.
  unfold resolveSpecies. case_bool_decide; [|done].
  by destruct (lastItem (t_ancestors (taxon ident))).
Qed.

(** Processing one observation stops with [process.exit] exactly when the
    resolver does, on the earliest qualifying identification. *)
Lemma parseObservation_exit_iff curators ranks acc obs :
  parseObservation curators ranks acc obs = ProcessExit ↔
  ∃ k ident sid sname,
    firstQualifying curators (identifications obs) = Some (k, ident)
    ∧ resolveSpecies ident = Ok (sid, sname)
    ∧ getConfirmationDateAccountingForTaxonChanges Date_getFullYear k obs
        (taxonChangeData acc) = ProcessExit.
Proof.
  rewrite parseObservation_closed.
  destruct (firstQualifying curators (identifications obs)) as [[k ident]|];
    [|split; [done | by intros (? & ? & ? & ? & ? & _)]].
  destruct (resolveSpecies ident) as [[sid sname]| |] eqn:Hspecies.
  - destruct (getConfirmationDateAccountingForTaxonChanges Date_getFullYear k obs
                (taxonChangeData acc)) as [[resolution sink]| |] eqn:Hresolve.
    + rewrite (recordIdentification_ok _ _ _ _ _ _ _ _ _ Hspecies Hresolve).
      split; [discriminate|].
      intros (? & ? & ? & ? & [= <- <-] & _ & Hexit). congruence.
    + split.
      * intros _. by exists k, ident, sid, sname.
      * intros _. unfold recordIdentification. rewrite Hspecies.
        cbn -[getConfirmationDateAccountingForTaxonChanges]. by rewrite Hresolve.
    + split.
      * unfold recordIdentification. rewrite Hspecies.
        cbn -[getConfirmationDateAccountingForTaxonChanges]. by rewrite Hresolve.
      * intros (? & ? & ? & ? & [= <- <-] & _ & Hexit). congruence.
  - by apply resolveSpecies_not_exit in Hspecies.
  - split.
    + unfold recordIdentification. by rewrite Hspecies.
    + intros (? & ? & ? & ? & [= <- <-] & Hok & _). congruence.
Qed.

End ScannerFacts.

(** ** The fatal error *)

Lemma resolver_exit_iff (Date_getFullYear : string → option Z) idx obs sink :
  getConfirmationDateAccountingForTaxonChanges Date_getFullYear idx obs sink
    = ProcessExit ↔
  ∃ cur change,
    identifications obs !! idx = Some cur
    ∧ taxon_change cur = Some change
    ∧ tc_type change ∉ knownTaxonChangeTypes.
Proof.
  destruct (identifications obs !! idx) as [cur|] eqn:Hidx.
  - destruct (taxon_change cur) as [change|] eqn:Hchange.
    + destruct (unknownTaxonChangeType change) eqn:Hknown.
      * rewrite (resolver_unknown_change _ _ _ _ _ _ Hidx Hchange Hknown).
        split; [|done]. intros _. exists cur, change.
        by apply unknownTaxonChangeType_spec in Hknown.
      * rewrite (resolver_known_change _ _ _ _ _ _ Hidx Hchange Hknown).
        split; [done|]. intros (cur' & change' & [= <-] & Hc & Hunknown).
        rewrite Hchange in Hc. injection Hc as <-.
        apply unknownTaxonChangeType_spec in Hunknown. congruence.
    + rewrite (resolver_no_change _ _ _ _ _ Hidx Hchange).
      split; [done|]. intros (cur' & change' & [= <-] & Hc & _). congruence.
  - rewrite (resolver_out_of_range _ _ _ _ Hidx).
    split; [done|]. by intros (cur' & change' & ? & _).
Qed.

Lemma resolver_no_type_error (Date_getFullYear : string → option Z) idx obs sink :
  is_Some (identifications obs !! idx) →
  getConfirmationDateAccountingForTaxonChanges Date_getFullYear idx obs sink
    ≠ TypeError.
Proof.
  intros [cur Hidx].
  destruct (taxon_change cur) as [change|] eqn:Hchange.
  - destruct (unknownTaxonChangeType change) eqn:Hknown.
    + by rewrite (resolver_unknown_change _ _ _ _ _ _ Hidx Hchange Hknown).
    + by rewrite (resolver_known_change _ _ _ _ _ _ Hidx Hchange Hknown).
  - by rewrite (resolver_no_change _ _ _ _ _ Hidx Hchange).
Qed.

(** C5: the resolver ends the process exactly when the identification at
    the index carries a taxon-change record whose type is none of
    [TaxonSwap], [TaxonSplit], [TaxonMerge]; on a valid index it raises no
    other error.  A run ends that way, returning no aggregate and no ledger,
    exactly when it reaches an observation whose earliest qualifying
    identification carries such a record (the observations before it having
    been processed, and the species of that identification resolved). *)
Theorem unknown_change_type_aborts_run
    (Date_getFullYear : string → option Z) (Date_getTime : option string → option Z)
    (objectMember : string → bool) :
  (∀ idx obs sink,
     getConfirmationDateAccountingForTaxonChanges Date_getFullYear idx obs sink
       = ProcessExit ↔
     ∃ cur change,
       identifications obs !! idx = Some cur
       ∧ taxon_change cur = Some change
       ∧ tc_type change ∉ knownTaxonChangeTypes)
  ∧ (∀ idx obs sink,
       is_Some (identifications obs !! idx) →
       getConfirmationDateAccountingForTaxonChanges Date_getFullYear idx obs sink
         ≠ TypeError)
  ∧ (∀ packets curators ranks,
       parseDataFiles Date_getFullYear Date_getTime objectMember packets curators ranks
         = ProcessExit ↔
       ∃ before obs after acc k ident sid sname change,
         concat packets = before ++ obs :: after
         ∧ parseDataFile Date_getFullYear Date_getTime before curators ranks initial
             = Ok acc
         ∧ firstQualifying curators (identifications obs) = Some (k, ident)
         ∧ resolveSpecies ident = Ok (sid, sname)
         ∧ taxon_change ident = Some change
         ∧ tc_type change ∉ knownTaxonChangeTypes).
Proof.
  split; [intros; apply resolver_exit_iff|].
  split; [intros; by apply resolver_no_type_error|].
  intros packets curators ranks.
  assert (Hrun : parseDataFiles Date_getFullYear Date_getTime objectMember packets curators ranks
                   = ProcessExit ↔
                 parseDataFile Date_getFullYear Date_getTime (concat packets)
                   curators ranks initial = ProcessExit).
  { unfold parseDataFiles. rewrite parsePackets_concat.
    by destruct (parseDataFile _ _ _ _ _ _). }
  rewrite Hrun, parseDataFile_exit_iff. split.
  - intros (before & obs & after & acc & Hsplit & Hbefore & Hexit).
    apply parseObservation_exit_iff in Hexit
      as (k & ident & sid & sname & Hfirst & Hspecies & Hexit).
    apply resolver_exit_iff in Hexit as (cur & change & Hidx & Hchange & Hunknown).
    pose proof Hfirst as Hfind. apply list_find_Some in Hfind as (Hk & _).
    rewrite Hk in Hidx. injection Hidx as <-.
    exists before, obs, after, acc, k, ident, sid, sname, change. eauto 10.
  - intros (before & obs & after & acc & k & ident & sid & sname & change
            & Hsplit & Hbefore & Hfirst & Hspecies & Hchange & Hunknown).
    exists before, obs, after, acc. split; [done|]. split; [done|].
    apply parseObservation_exit_iff. exists k, ident, sid, sname.
    split; [done|]. split; [done|].
    apply resolver_exit_iff. exists ident, change.
    apply list_find_Some in Hfirst as (Hk & _). eauto.
Qed.

Lemma unknown_change_type_aborts_run_witness :
  getConfirmationDateAccountingForTaxonChanges Sample.getFullYear 1 Sample.obsBogus []
    = ProcessExit
  ∧ getConfirmationDateAccountingForTaxonChanges Sample.getFullYear 2 Sample.obsSwap []
    ≠ TypeError
  ∧ parseDataFiles Sample.getFullYear Sample.getTime Sample.objectMember
      [[Sample.obsPlain]; [Sample.obsBogus; Sample.obsSwap]]
      Sample.curators Sample.ranks = ProcessExit.
Proof.
  destruct (unknown_change_type_aborts_run Sample.getFullYear Sample.getTime Sample.objectMember)
    as (Hresolver & Hvalid & Hrun).
  split; [|split].
  - apply Hresolver. exists Sample.aliceBogus, Sample.bogus.
    split; [reflexivity|]. split; [reflexivity|]. vm_compute.
    intros H. repeat (apply elem_of_cons in H as [H|H]; [discriminate H|]).
    by apply elem_of_nil in H.
  - apply Hvalid. eexists. reflexivity.
  - apply Hrun.
    exists [Sample.obsPlain], Sample.obsBogus, [Sample.obsSwap].
    eexists _, 1, Sample.aliceBogus, _, _, Sample.bogus.
    split; [reflexivity|]. split; [vm_compute; reflexivity|].
    split; [reflexivity|]. split; [reflexivity|]. split; [reflexivity|].
    vm_compute.
    intros H. repeat (apply elem_of_cons in H as [H|H]; [discriminate H|]).
    by apply elem_of_nil in H.
Defined.

(** ** The scanner: the earliest qualifying identification *)

Lemma qualifies_spec curators ident :
  qualifies curators ident = true ↔
  current ident = true
  ∧ login (user ident) ∈ curators
  ∧ (t_rank (taxon ident) = "species" ∨ t_rank (taxon ident) = "subspecies").
Proof.
  unfold qualifies, includes.
  rewrite !andb_true_iff, negb_true_iff, andb_false_iff, !bool_decide_eq_true,
    !bool_decide_eq_false.
  split.
  - intros [[Hcur Hin] Hrank]. split; [done|]. split; [done|].
    destruct (decide (t_rank (taxon ident) = "species")); [by left|].
    destruct (decide (t_rank (taxon ident) = "subspecies")); [by right|].
    by destruct Hrank.
  - intros (Hcur & Hin & Hrank). split; [done|].
    destruct Hrank as [Hrank|Hrank]; [left | right]; by intros Hne.
Qed.

Lemma firstQualifying_split curators skipped q later :
  Forall (fun ident => qualifies curators ident = false) skipped →
  qualifies curators q = true →
  firstQualifying curators (skipped ++ q :: later) = Some (length skipped, q).
Proof.
  intros Hskipped Hq. unfold firstQualifying.
  induction Hskipped as [|ident skipped Hident _ IH]; simpl.
  - by rewrite decide_True.
  - rewrite decide_False by (rewrite Hident; discriminate). by rewrite IH.
Qed.

Lemma firstQualifying_none curators ids :
  Forall (fun ident => qualifies curators ident = false) ids →
  firstQualifying curators ids = None.
Proof.
  intros Hall. apply list_find_None.
  eapply Forall_impl; [exact Hall|]. simpl. intros ident Hident. by rewrite Hident.
Qed.

Lemma recordCount_insert (processed : gmap Z SpeciesEntry) sid entry' :
  length (observations entry') =
    S (length (observations (default emptyEntry (processed !! sid)))) →
  recordCount (<[sid := entry']> processed) = S (recordCount processed).
Proof.
  intros Hlen. unfold recordCount.
  assert (Hcomm : ∀ (m : gmap Z SpeciesEntry) (j1 j2 : Z) (z1 z2 : SpeciesEntry) (y : nat),
             j1 ≠ j2 → m !! j1 = Some z1 → m !! j2 = Some z2 →
             length (observations z1) + (length (observations z2) + y) =
             length (observations z2) + (length (observations z1) + y))
    by (intros; lia).
  destruct (processed !! sid) as [entry|] eqn:Hentry; simpl in Hlen.
  - rewrite <- (insert_delete_eq processed).
    rewrite <- (insert_delete_id processed sid entry Hentry) at 2.
    rewrite !map_fold_insert_L; [lia | apply Hcomm | apply lookup_delete_eq
                                | apply Hcomm | apply lookup_delete_eq].
  - rewrite map_fold_insert_L; [lia | apply Hcomm | done].
Qed.

(** The resolver reads the observation's identifier and its identifications
    up to the index, nothing else. *)
Lemma walkEvents_obs_id (Date_getFullYear : string → option Z) obs1 obs2 lastObs earlier :
  obs_id obs1 = obs_id obs2 →
  walkEvents Date_getFullYear obs1 lastObs earlier =
    walkEvents Date_getFullYear obs2 lastObs earlier.
Proof.
  intros Hid. revert lastObs. induction earlier as [|ident earlier IH]; intros lastObs;
    [done|].
  simpl. destruct (taxon_change lastObs); [|done]. by rewrite Hid, IH.
Qed.

Lemma curatorHistory_prefix obs1 obs2 target n m :
  n ≤ m →
  take m (identifications obs1) = take m (identifications obs2) →
  curatorHistory obs1 target n = curatorHistory obs2 target n.
Proof.
  intros Hnm Htake. unfold curatorHistory.
  replace n with (n `min` m) by lia.
  by rewrite <- !take_take, Htake.
Qed.

Lemma resolver_prefix (Date_getFullYear : string → option Z) idx obs1 obs2 sink :
  obs_id obs1 = obs_id obs2 →
  take (S idx) (identifications obs1) = take (S idx) (identifications obs2) →
  getConfirmationDateAccountingForTaxonChanges Date_getFullYear idx obs1 sink =
    getConfirmationDateAccountingForTaxonChanges Date_getFullYear idx obs2 sink.
Proof.
  intros Hid Htake.
  assert (Hidx : identifications obs1 !! idx = identifications obs2 !! idx).
  { rewrite <- (lookup_take_lt (identifications obs1) (S idx) idx) by lia.
    rewrite <- (lookup_take_lt (identifications obs2) (S idx) idx) by lia.
    by rewrite Htake. }
  destruct (identifications obs1 !! idx) as [cur|] eqn:H1; symmetry in Hidx.
  - destruct (taxon_change cur) as [change|] eqn:Hchange.
    + destruct (unknownTaxonChangeType change) eqn:Hknown.
      * rewrite (resolver_unknown_change _ _ _ _ _ _ H1 Hchange Hknown).
        by rewrite (resolver_unknown_change _ _ _ _ _ _ Hidx Hchange Hknown).
      * rewrite (resolver_known_change _ _ _ _ _ _ H1 Hchange Hknown).
        rewrite (resolver_known_change _ _ _ _ _ _ Hidx Hchange Hknown).
        rewrite (curatorHistory_prefix obs1 obs2 _ (S idx) (S idx)) by done.
        rewrite (curatorHistory_prefix obs1 obs2 _ idx (S idx)) by (done || lia).
        by rewrite (walkEvents_obs_id _ obs1 obs2).
    + rewrite (resolver_no_change _ _ _ _ _ H1 Hchange).
      by rewrite (resolver_no_change _ _ _ _ _ Hidx Hchange).
  - rewrite (resolver_out_of_range _ _ _ _ H1).
    by rewrite (resolver_out_of_range _ _ _ _ Hidx).
Qed.

Lemma recordIdentification_withIdentifications
    (Date_getFullYear : string → option Z) (Date_getTime : option string → option Z)
    ranks obs ids' i ident acc :
  take (S i) ids' = take (S i) (identifications obs) →
  recordIdentification Date_getFullYear Date_getTime ranks
    (withIdentifications obs ids') i ident acc =
  recordIdentification Date_getFullYear Date_getTime ranks obs i ident acc.
Proof.
  intros Htake. unfold recordIdentification.
  rewrite (resolver_prefix Date_getFullYear i (withIdentifications obs ids') obs)
    by done.
  done.
Qed.

(** C6: an identification passes the scanner's three filters when it is
    current, by a curator, and at species or subspecies rank.  If none of an
    observation's identifications passes, the scanner leaves the accumulators
    as they were (no record).  Otherwise, with [q] the earliest one that
    passes, the scanner does what the loop body does for [q] at its position;
    when it returns, the aggregate differs from the previous one by exactly
    one more record, which is for [q] and filed under [q]'s species; and the
    identifications after [q] are never looked at. *)
Theorem scanner_records_earliest_qualifying
    (Date_getFullYear : string → option Z) (Date_getTime : option string → option Z)
    (curators ranks : list string) (acc : Accumulators) (obs : Observation) :
  (∀ ident,
     qualifies curators ident = true ↔
     current ident = true
     ∧ login (user ident) ∈ curators
     ∧ (t_rank (taxon ident) = "species" ∨ t_rank (taxon ident) = "subspecies"))
  ∧ (Forall (fun ident => qualifies curators ident = false) (identifications obs) →
     parseObservation Date_getFullYear Date_getTime curators ranks acc obs = Ok acc)
  ∧ (∀ skipped q later,
       identifications obs = skipped ++ q :: later →
       Forall (fun ident => qualifies curators ident = false) skipped →
       qualifies curators q = true →
       parseObservation Date_getFullYear Date_getTime curators ranks acc obs =
         snd <$> recordIdentification Date_getFullYear Date_getTime ranks obs
                   (length skipped) q acc
       ∧ (∀ acc',
            parseObservation Date_getFullYear Date_getTime curators ranks acc obs
              = Ok acc' →
            ∃ sid sname resolution,
              resolveSpecies q = Ok (sid, sname)
              ∧ fst <$> getConfirmationDateAccountingForTaxonChanges Date_getFullYear
                          (length skipped) obs (taxonChangeData acc) = Ok resolution
              ∧ processedData acc' =
                  <[sid := updateEntry ranks q sname
                             (observationRecord Date_getTime obs q
                                (originalConfirmationDate resolution))
                             (default emptyEntry (processedData acc !! sid))]>
                    (processedData acc)
              ∧ recordCount (processedData acc') = S (recordCount (processedData acc)))
       ∧ (∀ later',
            parseObservation Date_getFullYear Date_getTime curators ranks acc
              (withIdentifications obs (skipped ++ q :: later')) =
            parseObservation Date_getFullYear Date_getTime curators ranks acc obs)).
Proof.
  split; [apply qualifies_spec|]. split.
  - intros Hnone. rewrite parseObservation_closed.
    by rewrite (firstQualifying_none _ _ Hnone).
  - intros skipped q later Hids Hskipped Hq.
    assert (Hclosed :
      parseObservation Date_getFullYear Date_getTime curators ranks acc obs =
        snd <$> recordIdentification Date_getFullYear Date_getTime ranks obs
                  (length skipped) q acc).
    { rewrite parseObservation_closed, Hids.
      by rewrite (firstQualifying_split _ _ _ _ Hskipped Hq). }
    split; [exact Hclosed|]. split.
    + intros acc' Hrun. rewrite Hclosed in Hrun.
      destruct (recordIdentification Date_getFullYear Date_getTime ranks obs
                  (length skipped) q acc) as [[sid acc1]| |] eqn:Hrec; [|done..].
      injection Hrun as ->.
      apply recordIdentification_inv in Hrec as (sname & resolution & Hsp & Hres & Hacc).
      exists sid, sname, resolution. split; [done|]. split; [by rewrite Hres|].
      rewrite Hacc. cbn. split; [done|].
      apply recordCount_insert. cbn. rewrite length_app. cbn. lia.
    + intros later'. rewrite Hclosed, parseObservation_closed.
      cbn [identifications withIdentifications].
      rewrite (firstQualifying_split _ _ _ _ Hskipped Hq).
      rewrite recordIdentification_withIdentifications; [done|].
      rewrite Hids.
      replace (S (length skipped)) with (length skipped + 1) by lia.
      by rewrite !take_app_add.
Qed.

Lemma scanner_records_earliest_qualifying_witness :
  parseObservation Sample.getFullYear Sample.getTime Sample.curators Sample.ranks
    initial Sample.obsNone = Ok initial
  ∧ ∃ acc',
      parseObservation Sample.getFullYear Sample.getTime Sample.curators Sample.ranks
        initial Sample.obsSub = Ok acc'
      ∧ recordCount (processedData acc') = 1
      ∧ parseObservation Sample.getFullYear Sample.getTime Sample.curators Sample.ranks
          initial (withIdentifications Sample.obsSub [Sample.aliceGenus; Sample.aliceSub])
          = Ok acc'.
Proof.
  destruct (scanner_records_earliest_qualifying Sample.getFullYear Sample.getTime
              Sample.curators Sample.ranks initial Sample.obsNone)
    as (_ & Hnone & _).
  destruct (scanner_records_earliest_qualifying Sample.getFullYear Sample.getTime
              Sample.curators Sample.ranks initial Sample.obsSub)
    as (_ & _ & Hsome).
  split.
  - apply Hnone. repeat constructor.
  - destruct (Hsome [Sample.aliceGenus] Sample.aliceSub [Sample.alicePlain])
      as (Hclosed & Hone & Hstop); [reflexivity | repeat constructor | reflexivity |].
    eexists. split; [rewrite Hclosed; vm_compute; reflexivity|].
    split.
    + edestruct Hone as (sid & sname & resolution & _ & _ & _ & Hcount);
        [rewrite Hclosed; vm_compute; reflexivity|].
      exact Hcount.
    + refine (eq_trans (Hstop []) _). rewrite Hclosed. vm_compute. reflexivity.
Defined.

(** ** Invariants of a run *)

Section RunFacts.

Variable Date_getFullYear : string → option Z.
Variable Date_getTime : option string → option Z.

Local Abbreviation recorded := (recorded Date_getTime).
Local Abbreviation parseObservation := (parseObservation Date_getFullYear Date_getTime).
Local Abbreviation parseDataFile := (parseDataFile Date_getFullYear Date_getTime).

(** The two ways an observation is processed without error. *)
Lemma parseObservation_inv curators ranks acc obs acc' :
  parseObservation curators ranks acc obs = Ok acc' →
  (firstQualifying curators (identifications obs) = None ∧ acc' = acc)
  ∨ ∃ i q sid sname resolution,
      firstQualifying curators (identifications obs) = Some (i, q)
      ∧ resolveSpecies q = Ok (sid, sname)
      ∧ getConfirmationDateAccountingForTaxonChanges Date_getFullYear i obs
          (taxonChangeData acc) = Ok (resolution, taxonChangeData acc')
      ∧ acc' = recorded ranks obs q acc sid sname resolution (taxonChangeData acc').
Proof.
  rewrite parseObservation_closed.
  destruct (firstQualifying curators (identifications obs)) as [[i q]|];
    [|intros [= <-]; by left].
  intros Hrun. right.
  destruct (recordIdentification Date_getFullYear Date_getTime ranks obs i q acc)
    as [[sid acc1]| |] eqn:Hrec; [|done..].
  injection Hrun as ->.
  apply recordIdentification_inv in Hrec as (sname & resolution & ? & ? & ?).
  by exists i, q, sid, sname, resolution.
Qed.

(** Every key of the aggregate was a key before or is the species of the
    observation just processed. *)
Lemma parseObservation_keys curators ranks acc obs acc' k :
  parseObservation curators ranks acc obs = Ok acc' →
  is_Some (processedData acc' !! k) →
  is_Some (processedData acc !! k) ∨ filedUnder curators obs k.
Proof.
  intros Hrun Hk.
  apply parseObservation_inv in Hrun
    as [[_ ->]|(i & q & sid & sname & resolution & Hfirst & Hsp & _ & Hacc)];
    [by left|].
  rewrite Hacc in Hk. cbn in Hk.
  destruct (decide (sid = k)) as [<-|Hne].
  - right. by exists i, q, sname.
  - left. by rewrite lookup_insert_ne in Hk.
Qed.

Lemma parseDataFile_keys results curators ranks acc acc' k :
  parseDataFile results curators ranks acc = Ok acc' →
  is_Some (processedData acc' !! k) →
  is_Some (processedData acc !! k)
  ∨ ∃ obs, obs ∈ results ∧ filedUnder curators obs k.
Proof.
  revert acc. induction results as [|obs results IH]; intros acc Hrun Hk.
  - injection Hrun as <-. by left.
  - simpl in Hrun.
    destruct (parseObservation curators ranks acc obs) as [acc1| |] eqn:Hobs;
      [|done..].
    simpl in Hrun. destruct (IH _ Hrun Hk) as [Hk1|(o & Ho & Hfiled)].
    + destruct (parseObservation_keys _ _ _ _ _ _ Hobs Hk1) as [?|Hfiled];
        [by left|].
      right. exists obs. split; [apply list_elem_of_here | done].
    + right. exists o. split; [by apply list_elem_of_further | done].
Qed.

Lemma resolver_sink_irrelevant idx obs sink1 sink2 :
  fst <$> getConfirmationDateAccountingForTaxonChanges Date_getFullYear idx obs sink1 =
  fst <$> getConfirmationDateAccountingForTaxonChanges Date_getFullYear idx obs sink2.
Proof. by rewrite <- !helpers_resolver_agrees. Qed.

(** The removal list only grows, and it takes in whatever the observation
    flags. *)
Lemma parseObservation_taxonsToRemove curators ranks acc obs acc' taxonId :
  parseObservation curators ranks acc obs = Ok acc' →
  taxonId ∈ taxonsToRemove acc ∨ flaggedBy Date_getFullYear curators obs taxonId →
  taxonId ∈ taxonsToRemove acc'.
Proof.
  intros Hrun Hid.
  apply parseObservation_inv in Hrun
    as [[Hnone ->]|(i & q & sid & sname & resolution & Hfirst & _ & Hres & Hacc)].
  - destruct Hid as [?|(i & q & ? & ? & ? & Hfirst & _)]; [done | congruence].
  - rewrite Hacc. cbn. apply elem_of_app.
    destruct Hid as [?|(i' & q' & sink & resolution' & sink' & Hfirst' & Hres' & Hin)];
      [by left|].
    right. rewrite Hfirst in Hfirst'. injection Hfirst' as <- <-.
    pose proof (resolver_sink_irrelevant i obs sink (taxonChangeData acc)) as Hsame.
    rewrite Hres, Hres' in Hsame. by injection Hsame as <-.
Qed.

Lemma parseDataFile_taxonsToRemove results curators ranks acc acc' taxonId :
  parseDataFile results curators ranks acc = Ok acc' →
  taxonId ∈ taxonsToRemove acc
  ∨ (∃ obs, obs ∈ results ∧ flaggedBy Date_getFullYear curators obs taxonId) →
  taxonId ∈ taxonsToRemove acc'.
Proof.
  revert acc. induction results as [|obs results IH]; intros acc Hrun Hid.
  - injection Hrun as <-. destruct Hid as [?|(o & Ho & _)]; [done|].
    by apply elem_of_nil in Ho.
  - simpl in Hrun.
    destruct (parseObservation curators ranks acc obs) as [acc1| |] eqn:Hobs;
      [|done..].
    simpl in Hrun. apply (IH _ Hrun).
    destruct Hid as [Hid|(o & Ho & Hflag)].
    + left. apply (parseObservation_taxonsToRemove _ _ _ _ _ _ Hobs). by left.
    + apply elem_of_cons in Ho as [->|Ho].
      * left. apply (parseObservation_taxonsToRemove _ _ _ _ _ _ Hobs). by right.
      * right. by exists o.
Qed.

End RunFacts.

(** ** Subspecies are filed under their species *)

Lemma removeTaxons_lookup items (processed : gmap Z SpeciesEntry) k :
  removeTaxons items processed !! k =
    if decide (k ∈ items) then None else processed !! k.
Proof.
  unfold removeTaxons. revert processed.
  induction items as [|taxonId items IH]; intros processed; cbn [foldl].
  - rewrite decide_False; [done | apply not_elem_of_nil].
  - rewrite IH. destruct (decide (k ∈ items)) as [Hin|Hnotin].
    + rewrite decide_True; [done | by apply list_elem_of_further].
    + destruct (decide (taxonId = k)) as [->|Hne].
      * rewrite decide_True by apply list_elem_of_here. apply lookup_delete_eq.
      * rewrite decide_False by (rewrite elem_of_cons; intros [?|?]; congruence).
        by apply lookup_delete_ne.
Qed.

Lemma filedUnder_rank curators rankOf obs k :
  Forall (taxonomyRespected rankOf) (identifications obs) →
  filedUnder curators obs k →
  rankOf k = "species".
Proof.
  intros Hall (i & q & sname & Hfirst & Hspecies).
  apply list_find_Some in Hfirst as (Hi & Hq & _).
  apply qualifies_spec in Hq as (_ & _ & Hrank).
  rewrite Forall_lookup in Hall.
  destruct (Hall _ _ Hi) as (Hown & Hancestors & Hparent).
  unfold resolveSpecies in Hspecies. case_bool_decide as Hsub.
  - destruct (lastItem (t_ancestors (taxon q))) as [a|] eqn:Hlast; [|done].
    cbn in Hspecies. injection Hspecies as <- _.
    rewrite Forall_forall in Hancestors.
    rewrite (Hancestors a); [by apply Hparent|].
    unfold lastItem in Hlast. apply last_Some in Hlast as [l' ->].
    apply elem_of_app. right. apply list_elem_of_here.
  - injection Hspecies as <- _. rewrite Hown. by destruct Hrank.
Qed.

(** C7: a subspecies identification is resolved to the id and name of the
    last entry of its taxon's ancestor chain, and its record is filed under
    that id with that name.  After a run, every key of the aggregate is the
    species some observation's earliest qualifying identification resolved
    to: the taxon's own id at species rank, the last ancestor's id at
    subspecies rank.  Hence, the export following a taxonomy in which every
    id has one rank and a subspecies' ancestor chain ends with its parent
    species, no key of the aggregate is the id of a subspecies. *)
Theorem subspecies_filed_under_species
    (Date_getFullYear : string → option Z) (Date_getTime : option string → option Z)
    (objectMember : string → bool)
    (curators ranks : list string) :
  (∀ ident parent,
     t_rank (taxon ident) = "subspecies" →
     lastItem (t_ancestors (taxon ident)) = Some parent →
     resolveSpecies ident = Ok (anc_id parent, anc_name parent)
     ∧ ∀ acc obs i acc',
         firstQualifying curators (identifications obs) = Some (i, ident) →
         parseObservation Date_getFullYear Date_getTime curators ranks acc obs
           = Ok acc' →
         ∃ entry,
           processedData acc' !! anc_id parent = Some entry
           ∧ speciesName entry = Some (anc_name parent)
           ∧ ∀ k, k ≠ anc_id parent →
                  processedData acc' !! k = processedData acc !! k)
  ∧ (∀ packets aggregate ledger,
       parseDataFiles Date_getFullYear Date_getTime objectMember packets curators ranks
         = Ok (aggregate, ledger) →
       (∀ k, is_Some (aggregate !! k) →
             ∃ obs, obs ∈ concat packets ∧ filedUnder curators obs k)
       ∧ ∀ rankOf,
           Forall (fun obs => Forall (taxonomyRespected rankOf) (identifications obs))
                  (concat packets) →
           ∀ k, is_Some (aggregate !! k) → rankOf k ≠ "subspecies").
Proof.
  split.
  - intros ident parent Hrank Hlast.
    assert (Hspecies : resolveSpecies ident = Ok (anc_id parent, anc_name parent)).
    { unfold resolveSpecies. rewrite bool_decide_eq_true_2 by done. by rewrite Hlast. }
    split; [done|].
    intros acc obs i acc' Hfirst Hrun.
    apply parseObservation_inv in Hrun
      as [[Hnone _]|(i' & q & sid & sname & resolution & Hfirst' & Hsp & _ & Hacc)];
      [congruence|].
    rewrite Hfirst in Hfirst'. injection Hfirst' as <- <-.
    rewrite Hspecies in Hsp. injection Hsp as <- <-.
    rewrite Hacc. cbn. eexists. split; [apply lookup_insert_eq|]. split; [done|].
    intros k Hk. by apply lookup_insert_ne.
  - intros packets aggregate ledger Hrun.
    assert (Hkeys : ∀ k, is_Some (aggregate !! k) →
                         ∃ obs, obs ∈ concat packets ∧ filedUnder curators obs k).
    { intros k Hk. unfold parseDataFiles in Hrun.
      rewrite parsePackets_concat in Hrun.
      destruct (parseDataFile Date_getFullYear Date_getTime (concat packets)
                  curators ranks initial) as [acc| |] eqn:Hfile; [|done..].
      cbn in Hrun. injection Hrun as <- _.
      rewrite removeTaxons_lookup in Hk. destruct (decide _); [by destruct Hk|].
      destruct (parseDataFile_keys _ _ _ _ _ _ _ _ Hfile Hk) as [Hinit|?]; [|done].
      cbn in Hinit. rewrite lookup_empty in Hinit. by destruct Hinit. }
    split; [exact Hkeys|].
    intros rankOf Hall k Hk.
    destruct (Hkeys k Hk) as (obs & Hobs & Hfiled).
    rewrite Forall_forall in Hall.
    rewrite (filedUnder_rank curators rankOf obs k (Hall _ Hobs) Hfiled).
    discriminate.
Qed.

Lemma subspecies_filed_under_species_witness :
  resolveSpecies Sample.aliceSub = Ok (250%Z, "Hemaris thysbe")
  ∧ ∃ aggregate ledger,
      parseDataFiles Sample.getFullYear Sample.getTime Sample.objectMember
        [[Sample.obsSub]; [Sample.obsSwap]] Sample.curators Sample.ranks
        = Ok (aggregate, ledger)
      ∧ ∀ k, is_Some (aggregate !! k) → Sample.rankOf k ≠ "subspecies".
Proof.
  destruct (subspecies_filed_under_species Sample.getFullYear Sample.getTime Sample.objectMember
              Sample.curators Sample.ranks) as [Hresolve Hrun].
  split.
  - apply (Hresolve Sample.aliceSub Sample.parentSpecies); reflexivity.
  - destruct (parseDataFiles Sample.getFullYear Sample.getTime Sample.objectMember
                [[Sample.obsSub]; [Sample.obsSwap]] Sample.curators Sample.ranks)
      as [[aggregate ledger]| |] eqn:Hok;
      [| vm_compute in Hok; discriminate Hok..].
    exists aggregate, ledger. split; [reflexivity|].
    destruct (Hrun _ _ _ Hok) as [_ Hrank]. apply (Hrank Sample.rankOf).
    repeat constructor; try reflexivity;
      intros Hsub; try discriminate Hsub; by intros a [= <-].
Defined.

(** ** Deduplication and the global cleanup *)

Lemma filterIndexed_firstSeen (prefix l : list Z) :
  filterIndexed (fun value index => bool_decide (indexOf (prefix ++ l) value = index))
    (Z.of_nat (length prefix)) l =
  dedupFirstSeen prefix l.
Proof.
  revert prefix. induction l as [|x l IH]; intros prefix; [done|].
  cbn [filterIndexed dedupFirstSeen].
  specialize (IH (prefix ++ [x])).
  rewrite <- app_assoc, length_app in IH. cbn [app length] in IH.
  replace (Z.of_nat (length prefix + 1)) with (Z.of_nat (length prefix) + 1)%Z in IH
    by lia.
  rewrite IH.
  destruct (decide (x ∈ prefix)) as [Hin|Hnotin].
  - rewrite bool_decide_eq_false_2; [done|].
    intros Hpos. by apply indexOf_own_position in Hpos.
  - rewrite bool_decide_eq_true_2; [done|]. by apply indexOf_own_position.
Qed.

Lemma dedupFirstSeen_elem_of seen l x :
  x ∈ dedupFirstSeen seen l ↔ x ∈ l ∧ x ∉ seen.
Proof.
  revert seen. induction l as [|y l IH]; intros seen; cbn [dedupFirstSeen].
  - rewrite !elem_of_nil. tauto.
  - destruct (decide (y ∈ seen)) as [Hy|Hy];
      rewrite ?elem_of_cons, IH, ?elem_of_cons, elem_of_app, list_elem_of_singleton.
    + split.
      * intros [Hx Hseen]. split; [by right | tauto].
      * intros [[-> | Hx] Hseen]; [done|]. split; [done|]. intros [? | ->]; done.
    + split.
      * intros [-> | [Hx Hseen]]; [by split; [left|] | split; [by right | tauto]].
      * intros [[-> | Hx] Hseen]; [by left|].
        destruct (decide (x = y)) as [->|Hne]; [by left|].
        right. split; [done|]. intros [?|?]; done.
Qed.

Lemma dedupFirstSeen_NoDup seen l : NoDup (dedupFirstSeen seen l).
Proof.
  revert seen. induction l as [|y l IH]; intros seen; cbn [dedupFirstSeen].
  - constructor.
  - destruct (decide (y ∈ seen)); [apply IH|].
    constructor; [|apply IH].
    rewrite dedupFirstSeen_elem_of, elem_of_app, list_elem_of_singleton. tauto.
Qed.

Lemma dedupFirstSeen_sublist seen l : sublist (dedupFirstSeen seen l) l.
Proof.
  revert seen. induction l as [|y l IH]; intros seen; cbn [dedupFirstSeen].
  - constructor.
  - destruct (decide (y ∈ seen)); [apply sublist_cons | apply sublist_skip]; apply IH.
Qed.

Lemma getUniqueItems_firstSeen arr : getUniqueItems arr = dedupFirstSeen [] arr.
Proof. apply (filterIndexed_firstSeen [] arr). Qed.

(** C8: [getUniqueItems] keeps each item at its first occurrence and drops
    the later ones: it returns the empty list on the empty list, a
    duplicate-free list with the same members in general, in the order of
    the input.  The final aggregate is the accumulated one without the keys
    of the removal list.  Hence, after a run, a taxon id that any observation
    flagged as superseded is not a key of the aggregate, whatever was filed
    under it. *)
Theorem superseded_ids_removed_globally
    (Date_getFullYear : string → option Z) (Date_getTime : option string → option Z)
    (objectMember : string → bool) :
  getUniqueItems [] = []
  ∧ (∀ arr,
       getUniqueItems arr = dedupFirstSeen [] arr
       ∧ NoDup (getUniqueItems arr)
       ∧ (∀ x, x ∈ getUniqueItems arr ↔ x ∈ arr)
       ∧ sublist (getUniqueItems arr) arr)
  ∧ (∀ acc k,
       (finish objectMember acc).1 !! k =
         if decide (k ∈ taxonsToRemove acc) then None else processedData acc !! k)
  ∧ (∀ packets curators ranks aggregate ledger obs taxonId,
       parseDataFiles Date_getFullYear Date_getTime objectMember packets curators ranks
         = Ok (aggregate, ledger) →
       obs ∈ concat packets →
       flaggedBy Date_getFullYear curators obs taxonId →
       aggregate !! taxonId = None).
Proof.
  split; [done|]. split; [|split].
  - intros arr. rewrite getUniqueItems_firstSeen.
    split; [done|]. split; [apply dedupFirstSeen_NoDup|].
    split; [|apply dedupFirstSeen_sublist].
    intros x. rewrite dedupFirstSeen_elem_of, elem_of_nil. tauto.
  - intros acc k. unfold finish. cbn [fst]. rewrite removeTaxons_lookup.
    rewrite getUniqueItems_firstSeen.
    destruct (decide (k ∈ dedupFirstSeen [] (taxonsToRemove acc))) as [Hin|Hnotin];
      rewrite dedupFirstSeen_elem_of, elem_of_nil in *.
    + rewrite decide_True; [done | tauto].
    + rewrite decide_False; [done | tauto].
  - intros packets curators ranks aggregate ledger obs taxonId Hrun Hobs Hflag.
    unfold parseDataFiles in Hrun. rewrite parsePackets_concat in Hrun.
    destruct (parseDataFile Date_getFullYear Date_getTime (concat packets)
                curators ranks initial) as [acc| |] eqn:Hfile; [|done..].
    cbn in Hrun. injection Hrun as <- _.
    rewrite removeTaxons_lookup, decide_True; [done|].
    rewrite getUniqueItems_firstSeen, dedupFirstSeen_elem_of, elem_of_nil.
    split; [|tauto].
    apply (parseDataFile_taxonsToRemove _ _ _ _ _ _ _ _ Hfile).
    right. by exists obs.
Qed.

Lemma superseded_ids_removed_globally_witness :
  ∃ aggregate ledger,
    parseDataFiles Sample.getFullYear Sample.getTime Sample.objectMember
      [[Sample.obsPlain]; [Sample.obsSwap]] Sample.curators Sample.ranks
      = Ok (aggregate, ledger)
    ∧ aggregate !! 100%Z = None.
Proof.
  destruct (superseded_ids_removed_globally Sample.getFullYear Sample.getTime Sample.objectMember)
    as (_ & _ & _ & Hrun).
  destruct (parseDataFiles Sample.getFullYear Sample.getTime Sample.objectMember
              [[Sample.obsPlain]; [Sample.obsSwap]] Sample.curators Sample.ranks)
    as [[aggregate ledger]| |] eqn:Hok;
    [| vm_compute in Hok; discriminate Hok..].
  exists aggregate, ledger. split; [reflexivity|].
  apply (Hrun _ _ _ _ _ Sample.obsSwap 100%Z Hok).
  - cbn [concat app]. apply list_elem_of_further, list_elem_of_here.
  - exists 2, Sample.aliceSwapped, [].
    eexists {| deprecatedTaxonIds := [100%Z]; originalConfirmationDate := _ |}, _.
    split; [reflexivity|]. split; [vm_compute; reflexivity|].
    apply list_elem_of_here.
Defined.

(** ** The change ledger *)

Section LedgerFacts.

Variable objectMember : string → bool.

Local Abbreviation groupStep := (groupRow objectMember).
Local Abbreviation grouping := (groupByYear objectMember).

(** What one event changes in the two-level lookup: nothing where an entry
    is stored already, nothing under a prior name that is an inherited
    member, its own entry otherwise. *)
Lemma groupRow_lookup grouped row year priorName :
  ledgerLookup (groupStep grouped row) year priorName =
    match ledgerLookup grouped year priorName with
    | Some entry => Some entry
    | None =>
        if decide (sameLedgerKey year priorName row)
        then if objectMember priorName then None else Some (ledgerEntryOf row)
        else None
    end.
Proof.
  unfold ledgerLookup, groupRow, priorNameFound, sameLedgerKey, ledgerEntryOf.
  destruct (grouped !! yearChanged row) as [ofYear|] eqn:Hyear; cbn [truthy].
  - rewrite Hyear.
    destruct (ofYear !! previousSpeciesName row) as [entry|] eqn:Hname.
    + destruct (decide (yearChanged row = year)) as [<-|Hne].
      * rewrite Hyear. cbn.
        destruct (ofYear !! priorName) eqn:Hprior; [done|].
        rewrite decide_False; [done|]. intros [_ <-]. congruence.
      * destruct (grouped !! year) as [ofYear'|]; cbn.
        -- destruct (ofYear' !! priorName); [done|].
           rewrite decide_False; [done|]. by intros [? _].
        -- rewrite decide_False; [done|]. by intros [? _].
    + destruct (objectMember (previousSpeciesName row)) eqn:Hmember.
      * destruct (decide (yearChanged row = year)) as [<-|Hne].
        -- rewrite Hyear. cbn.
           destruct (decide (previousSpeciesName row = priorName)) as [<-|Hne].
           ++ rewrite Hname, decide_True by done. by rewrite Hmember.
           ++ destruct (ofYear !! priorName); [done|].
              rewrite decide_False; [done|]. by intros [_ ?].
        -- destruct (grouped !! year) as [ofYear'|]; cbn.
           ++ destruct (ofYear' !! priorName); [done|].
              rewrite decide_False; [done|]. by intros [? _].
           ++ rewrite decide_False; [done|]. by intros [? _].
      * destruct (decide (yearChanged row = year)) as [<-|Hne].
        -- rewrite lookup_insert_eq, Hyear. cbn.
           destruct (decide (previousSpeciesName row = priorName)) as [<-|Hne].
           ++ rewrite lookup_insert_eq, Hname, decide_True by done.
              by rewrite Hmember.
           ++ rewrite lookup_insert_ne by done.
              destruct (ofYear !! priorName); [done|].
              rewrite decide_False; [done|]. by intros [_ ?].
        -- rewrite lookup_insert_ne by done.
           destruct (grouped !! year) as [ofYear'|]; cbn.
           ++ destruct (ofYear' !! priorName); [done|].
              rewrite decide_False; [done|]. by intros [? _].
           ++ rewrite decide_False; [done|]. by intros [? _].
  - rewrite lookup_insert_eq. rewrite lookup_empty.
    destruct (objectMember (previousSpeciesName row)) eqn:Hmember.
    + destruct (decide (yearChanged row = year)) as [<-|Hne].
      * rewrite lookup_insert_eq, Hyear. cbn. rewrite lookup_empty.
        destruct (decide (previousSpeciesName row = priorName)) as [<-|Hne].
        -- rewrite decide_True by done. by rewrite Hmember.
        -- rewrite decide_False; [done|]. by intros [_ ?].
      * rewrite lookup_insert_ne by done.
        destruct (grouped !! year) as [ofYear'|]; cbn.
        -- destruct (ofYear' !! priorName); [done|].
           rewrite decide_False; [done|]. by intros [? _].
        -- rewrite decide_False; [done|]. by intros [? _].
    + destruct (decide (yearChanged row = year)) as [<-|Hne].
      * rewrite insert_insert_eq, lookup_insert_eq, Hyear. cbn.
        destruct (decide (previousSpeciesName row = priorName)) as [<-|Hne].
        -- rewrite lookup_insert_eq, decide_True by done. by rewrite Hmember.
        -- rewrite lookup_insert_ne, lookup_empty by done.
           rewrite decide_False; [done|]. by intros [_ ?].
      * rewrite !lookup_insert_ne by done.
        destruct (grouped !! year) as [ofYear'|]; cbn.
        -- destruct (ofYear' !! priorName); [done|].
           rewrite decide_False; [done|]. by intros [? _].
        -- rewrite decide_False; [done|]. by intros [? _].
Qed.

Lemma foldl_groupRow_lookup rows grouped year priorName :
  ledgerLookup (foldl groupStep grouped rows) year priorName =
    match ledgerLookup grouped year priorName with
    | Some entry => Some entry
    | None =>
        if objectMember priorName then None
        else (fun found => ledgerEntryOf found.2)
               <$> list_find (sameLedgerKey year priorName) rows
    end.
Proof.
  revert grouped. induction rows as [|row rows IH]; intros grouped; cbn [foldl list_find].
  - destruct (ledgerLookup grouped year priorName); [done|].
    by destruct (objectMember priorName).
  - rewrite IH, groupRow_lookup.
    destruct (ledgerLookup grouped year priorName); [done|].
    destruct (objectMember priorName); [by destruct (decide _)|].
    destruct (decide (sameLedgerKey year priorName row)); [done|].
    by destruct (list_find _ rows) as [[k found]|].
Qed.

Lemma groupByYear_lookup rows year priorName :
  ledgerLookup (grouping rows) year priorName =
    if objectMember priorName then None
    else (fun found => ledgerEntryOf found.2)
           <$> list_find (sameLedgerKey year priorName) rows.
Proof.
  unfold groupByYear. rewrite foldl_groupRow_lookup.
  unfold ledgerLookup. by rewrite lookup_empty.
Qed.

Lemma groupRow_year grouped row year :
  is_Some (groupStep grouped row !! year) ↔
  is_Some (grouped !! year) ∨ yearChanged row = year.
Proof.
  unfold groupRow.
  destruct (grouped !! yearChanged row) as [ofYear|] eqn:Hyear; cbn [truthy].
  - rewrite Hyear.
    destruct (priorNameFound objectMember ofYear (previousSpeciesName row)).
    + split; [by left|]. intros [?| <-]; [done | by rewrite Hyear].
    + destruct (decide (yearChanged row = year)) as [<-|Hne].
      * rewrite lookup_insert_eq, Hyear. split; eauto.
      * rewrite lookup_insert_ne by done. split; [by left | by intros [?|?]].
  - rewrite lookup_insert_eq.
    destruct (priorNameFound objectMember ∅ (previousSpeciesName row)).
    + destruct (decide (yearChanged row = year)) as [<-|Hne].
      * rewrite lookup_insert_eq. split; eauto.
      * rewrite lookup_insert_ne by done. split; [by left | by intros [?|?]].
    + destruct (decide (yearChanged row = year)) as [<-|Hne].
      * rewrite lookup_insert_eq. split; eauto.
      * rewrite !lookup_insert_ne by done. split; [by left | by intros [?|?]].
Qed.

Lemma foldl_groupRow_year rows grouped year :
  is_Some (foldl groupStep grouped rows !! year) ↔
  is_Some (grouped !! year) ∨ ∃ row, row ∈ rows ∧ yearChanged row = year.
Proof.
  revert grouped. induction rows as [|row rows IH]; intros grouped; cbn [foldl].
  - split; [by left|]. intros [?|(row & Hin & _)]; [done|]. by apply elem_of_nil in Hin.
  - rewrite IH, groupRow_year. split.
    + intros [[?|Hrow]|(r & Hin & Hr)].
      * by left.
      * right. exists row. split; [apply list_elem_of_here | done].
      * right. exists r. split; [by apply list_elem_of_further | done].
    + intros [?|(r & Hin & Hr)]; [by left; left|].
      apply elem_of_cons in Hin as [->|Hin]; [by left; right|].
      right. by exists r.
Qed.

Lemma groupByYear_year rows year :
  is_Some (grouping rows !! year) ↔ ∃ row, row ∈ rows ∧ yearChanged row = year.
Proof.
  unfold groupByYear. rewrite foldl_groupRow_year, lookup_empty.
  split; [by intros [[? ?]|?] | by right].
Qed.

End LedgerFacts.

(** C9: the fold of the collector does not give every (year, prior name)
    pair an entry.  The test [!ofYear[priorName]] also finds the members every
    object inherits, so an event whose prior species name is the name of such
    a member ([constructor], [toString], ...) is taken for a repetition: its
    year is created in the ledger, but no entry is stored under its prior
    name, although no earlier event has that year and that prior name. *)
Theorem inherited_member_name_gets_no_ledger_entry
    (objectMember : string → bool)
    (before after : list TaxonChangeData) (row : TaxonChangeData) :
  objectMember (previousSpeciesName row) = true →
  ledgerLookup (groupByYear objectMember (before ++ row :: after))
    (yearChanged row) (previousSpeciesName row) = None
  ∧ is_Some (groupByYear objectMember (before ++ row :: after) !! yearChanged row).
Proof.
  intros Hmember. split.
  - by rewrite groupByYear_lookup, Hmember.
  - apply groupByYear_year. exists row. split; [|done].
    apply elem_of_app. right. apply list_elem_of_here.
Qed.

Lemma inherited_member_name_gets_no_ledger_entry_witness :
  let row :=
    {| tcd_id := 9%Z; previousSpeciesName := "constructor";
       newSpeciesName := "Hemaris thetis"; yearChanged := Some 2021%Z;
       taxonChangeId := 9001%Z |} in
  ledgerLookup (groupByYear Sample.objectMember ([] ++ row :: []))
    (Some 2021%Z) "constructor" = None
  ∧ is_Some (groupByYear Sample.objectMember ([] ++ row :: []) !! Some 2021%Z).
Proof.
  intros row.
  apply (inherited_member_name_gets_no_ledger_entry Sample.objectMember [] [] row).
  reflexivity.
Defined.

(** The same at the level of a run: the curator's first identification is
    of a taxon named [constructor], the second moves it by a swap; the run
    returns a ledger whose year 2021 holds nothing. *)
Example run_with_inherited_member_name :
  (fun out => out.2 !! Some 2021%Z)
    <$> parseDataFiles Sample.getFullYear Sample.getTime Sample.objectMember
          [[Sample.obsMember]] Sample.curators Sample.ranks =
  Ok (Some ∅).
Proof. vm_compute. reflexivity. Qed.

(** ** An entry that already exists *)

(** C10: when the earliest qualifying identification of an observation
    resolves to a species that already has an entry in the aggregate,
    processing the observation keeps the entry's taxonomy projection if it is
    set (and computes it from this identification's ancestors if it is not),
    overwrites the entry's species name with the newly resolved name, and
    appends one record.  So after a packet is processed, the name of a
    species is the one resolved for the last observation filed under it. *)
Theorem existing_entry_keeps_taxonomy_overwrites_name
    (Date_getFullYear : string → option Z) (Date_getTime : option string → option Z)
    (curators ranks : list string) (obs : Observation)
    (i : nat) (q : Identification) (sid : Z) (sname : string) :
  firstQualifying curators (identifications obs) = Some (i, q) →
  resolveSpecies q = Ok (sid, sname) →
  (∀ acc acc' entry,
     processedData acc !! sid = Some entry →
     parseObservation Date_getFullYear Date_getTime curators ranks acc obs = Ok acc' →
     ∃ entry',
       processedData acc' !! sid = Some entry'
       ∧ speciesName entry' = Some sname
       ∧ (∀ projection,
            taxonomy entry = Some projection → taxonomy entry' = Some projection)
       ∧ (taxonomy entry = None →
          taxonomy entry' = Some (getTaxonomy (t_ancestors (taxon q)) ranks))
       ∧ ∃ record, observations entry' = observations entry ++ [record])
  ∧ (∀ results acc acc',
       parseDataFile Date_getFullYear Date_getTime (results ++ [obs]) curators ranks acc
         = Ok acc' →
       ∃ entry',
         processedData acc' !! sid = Some entry' ∧ speciesName entry' = Some sname).
Proof.
  intros Hfirst Hspecies.
  assert (Hstep : ∀ acc acc',
    parseObservation Date_getFullYear Date_getTime curators ranks acc obs = Ok acc' →
    ∃ resolution,
      processedData acc' !! sid =
        Some (updateEntry ranks q sname
                (observationRecord Date_getTime obs q
                   (originalConfirmationDate resolution))
                (default emptyEntry (processedData acc !! sid)))).
  { intros acc acc' Hrun.
    apply parseObservation_inv in Hrun
      as [[Hnone _]|(i' & q' & sid' & sname' & resolution & Hfirst' & Hsp & _ & Hacc)];
      [congruence|].
    rewrite Hfirst in Hfirst'. injection Hfirst' as <- <-.
    rewrite Hspecies in Hsp. injection Hsp as <- <-.
    exists resolution. rewrite Hacc. cbn. apply lookup_insert_eq. }
  split.
  - intros acc acc' entry Hentry Hrun.
    destruct (Hstep _ _ Hrun) as [resolution Hlookup].
    rewrite Hentry in Hlookup. cbn [default] in Hlookup.
    eexists. split; [exact Hlookup|]. cbn. split; [done|]. split; [|split].
    + intros projection Hset. by rewrite Hset.
    + intros Hunset. by rewrite Hunset.
    + by eexists.
  - intros results acc acc' Hrun. rewrite parseDataFile_app in Hrun.
    destruct (parseDataFile Date_getFullYear Date_getTime results curators ranks acc)
      as [acc1| |]; [|done..].
    cbn in Hrun.
    destruct (parseObservation Date_getFullYear Date_getTime curators ranks acc1 obs)
      as [acc2| |] eqn:Hobs; [|done..].
    cbn in Hrun. injection Hrun as <-.
    destruct (Hstep _ _ Hobs) as [resolution Hlookup].
    eexists. split; [exact Hlookup | done].
Qed.

Lemma existing_entry_keeps_taxonomy_overwrites_name_witness :
  ∃ acc' entry',
    parseObservation Sample.getFullYear Sample.getTime Sample.curators Sample.ranks
      Sample.knownAccumulators Sample.obsRenamed = Ok acc'
    ∧ processedData acc' !! 100%Z = Some entry'
    ∧ speciesName entry' = Some "Hemaris diffinis sensu lato"
    ∧ taxonomy entry' = Some {[ "family" := "Sphingidae" ]}.
Proof.
  destruct (existing_entry_keeps_taxonomy_overwrites_name
              Sample.getFullYear Sample.getTime Sample.curators Sample.ranks
              Sample.obsRenamed 0 Sample.aliceRenamed 100%Z
              "Hemaris diffinis sensu lato" eq_refl eq_refl) as [Hentry _].
  destruct (parseObservation Sample.getFullYear Sample.getTime Sample.curators
              Sample.ranks Sample.knownAccumulators Sample.obsRenamed)
    as [acc'| |] eqn:Hok; [| vm_compute in Hok; discriminate Hok..].
  destruct (Hentry Sample.knownAccumulators acc' Sample.knownEntry)
    as (entry' & Hlookup & Hname & Hkeep & _ & _);
    [apply lookup_singleton_eq | exact Hok |].
  exists acc', entry'. split; [reflexivity|]. split; [exact Hlookup|].
  split; [exact Hname|]. by apply Hkeep.
Defined.

(** ** The model on the sample data *)

Example getUniqueItems_keeps_first_occurrences :
  getUniqueItems [3; 1; 3; 2; 1; 3]%Z = [3; 1; 2]%Z.
Proof. reflexivity. Qed.

Example getTaxonomy_projects_wanted_ranks :
  getTaxonomy [Sample.family; Sample.genus; Sample.parentSpecies] ["family"; "species"] =
    {[ "family" := "Sphingidae"; "species" := "Hemaris thysbe" ]}.
Proof. vm_compute. reflexivity. Qed.

(** One observation, confirmed by a curator with no taxon change: one
    species entry, one record, dated by the identification itself. *)
Example run_without_taxon_change :
  (fun out => (fun entry => (speciesName entry,
                               map rec_confirmationDate (observations entry)))
                <$> out.1 !! 100%Z)
    <$> parseDataFiles Sample.getFullYear Sample.getTime Sample.objectMember [[Sample.obsPlain]]
          Sample.curators Sample.ranks =
  Ok (Some (Some "Hemaris diffinis", [Some "2019-04-01T09:00:00Z"])).
Proof. vm_compute. reflexivity. Qed.

(** A swap after an earlier confirmation by the same curator: the record is
    under the new taxon, dated by the earlier confirmation; the old taxon has
    no entry; the ledger records the change under its year. *)
Example run_with_taxon_swap :
  (fun out => ((fun entry => map rec_confirmationDate (observations entry))
                 <$> out.1 !! 200%Z,
               out.1 !! 100%Z,
               ledgerLookup out.2 (Some 2021%Z) "Hemaris diffinis"))
    <$> parseDataFiles Sample.getFullYear Sample.getTime Sample.objectMember
          [[Sample.obsPlain]; [Sample.obsSwap]] Sample.curators Sample.ranks =
  Ok (Some [Some "2019-04-01T09:00:00Z"], None,
      Some {| le_newSpeciesName := "Hemaris thetis"; le_taxonChangeId := 9001%Z |}).
Proof. vm_compute. reflexivity. Qed.

(** A chain of changes back to the curator's first identification: the
    record carries no confirmation date. *)
Example run_with_unset_date :
  (fun out => (fun entry => map rec_confirmationDate (observations entry))
                <$> out.1 !! 200%Z)
    <$> parseDataFiles Sample.getFullYear Sample.getTime Sample.objectMember [[Sample.obsChain]]
          Sample.curators Sample.ranks =
  Ok (Some [None]).
Proof. vm_compute. reflexivity. Qed.

(** * Further properties of the helpers *)

(** ** The taxonomy extractor *)

Lemma getTaxonomy_snoc ancestors a wanted :
  getTaxonomy (ancestors ++ [a]) wanted =
    if bool_decide (indexOf wanted (anc_rank a) ≠ (-1)%Z)
    then <[anc_rank a := anc_name a]> (getTaxonomy ancestors wanted)
    else getTaxonomy ancestors wanted.
Proof. unfold getTaxonomy. by rewrite foldl_app. Qed.

Lemma getTaxonomy_lookup ancestors wanted rank :
  getTaxonomy ancestors wanted !! rank =
    if decide (rank ∈ wanted)
    then anc_name <$> last (filter (fun a => anc_rank a = rank) ancestors)
    else None.
Proof.
  induction ancestors as [|a ancestors IH] using rev_ind.
  - unfold getTaxonomy. cbn. rewrite lookup_empty. by destruct (decide _).
  - rewrite getTaxonomy_snoc, filter_app, last_app.
    rewrite filter_cons, filter_nil.
    case_bool_decide as Hwanted.
    + destruct (decide (anc_rank a = rank)) as [<-|Hne].
      * rewrite lookup_insert_eq. cbn.
        rewrite decide_True; [done|].
        apply dec_stable. intros Hnot. by apply indexOf_absent in Hnot.
      * rewrite lookup_insert_ne by done. by rewrite IH.
    + rewrite IH. apply indexOf_absent in Hwanted.
      destruct (decide (anc_rank a = rank)) as [<-|Hne]; [|done].
      by rewrite !decide_False.
Qed.

(** X1: the projection maps a rank to a name only if the rank is wanted, and
    then to the name of the last ancestor of that rank; ranks that are not
    wanted, or that no ancestor has, are absent.  In particular the
    projection of an empty chain, or for no wanted rank, is empty. *)
Theorem taxonomy_holds_last_ancestor_of_each_wanted_rank
    (ancestors : list INatTaxonAncestor) (wanted : list string) :
  (∀ rank,
     getTaxonomy ancestors wanted !! rank =
       if decide (rank ∈ wanted)
       then anc_name <$> last (filter (fun a => anc_rank a = rank) ancestors)
       else None)
  ∧ (∀ rank name,
       getTaxonomy ancestors wanted !! rank = Some name →
       rank ∈ wanted
       ∧ ∃ a, a ∈ ancestors ∧ anc_rank a = rank ∧ anc_name a = name)
  ∧ getTaxonomy [] wanted = ∅
  ∧ getTaxonomy ancestors [] = ∅.
Proof.
  split; [apply getTaxonomy_lookup|]. split; [|split].
  - intros rank name. rewrite getTaxonomy_lookup.
    destruct (decide (rank ∈ wanted)) as [Hin|]; [|done].
    intros Hlast. split; [done|].
    destruct (last (filter _ ancestors)) as [a|] eqn:Hfilter; [|done].
    injection Hlast as <-. exists a.
    apply last_Some in Hfilter as [l' Hl'].
    assert (Ha : a ∈ filter (fun a => anc_rank a = rank) ancestors).
    { rewrite Hl'. apply elem_of_app. right. apply list_elem_of_here. }
    apply list_elem_of_filter in Ha as [? ?]. done.
  - done.
  - apply map_eq. intros rank. rewrite getTaxonomy_lookup, lookup_empty.
    rewrite decide_False; [done | apply not_elem_of_nil].
Qed.

(** X2: the projection of a chain made of two parts is the projection of the
    second part, completed by that of the first for the ranks the second
    does not have. *)
Theorem taxonomy_of_appended_chains
    (ancestors1 ancestors2 : list INatTaxonAncestor) (wanted : list string) :
  getTaxonomy (ancestors1 ++ ancestors2) wanted =
    getTaxonomy ancestors2 wanted ∪ getTaxonomy ancestors1 wanted.
Proof.
  apply map_eq. intros rank.
  rewrite lookup_union, !getTaxonomy_lookup, filter_app, last_app.
  destruct (decide (rank ∈ wanted)); [|done].
  destruct (last (filter _ ancestors2)); cbn; [|by destruct (last _)].
  by destruct (last _).
Qed.

(** ** Deduplication *)

Lemma dedupFirstSeen_NoDup_id seen l :
  NoDup l → (∀ x, x ∈ l → x ∉ seen) → dedupFirstSeen seen l = l.
Proof.
  intros Hnodup. revert seen.
  induction Hnodup as [|x l Hx _ IH]; intros seen Hseen; [done|].
  cbn [dedupFirstSeen].
  rewrite decide_False by (apply Hseen, list_elem_of_here).
  f_equal. apply IH. intros y Hy.
  rewrite elem_of_app, list_elem_of_singleton. intros [?| ->]; [|done].
  by apply (Hseen y); [apply list_elem_of_further|].
Qed.

(** X3: a list is left as it is by [getUniqueItems] exactly when it has no
    duplicate; so deduplicating twice is deduplicating once; and the result
    is never longer than the input. *)
Theorem getUniqueItems_fixes_duplicate_free_lists (arr : list Z) :
  (getUniqueItems arr = arr ↔ NoDup arr)
  ∧ getUniqueItems (getUniqueItems arr) = getUniqueItems arr
  ∧ length (getUniqueItems arr) ≤ length arr.
Proof.
  assert (Hfix : ∀ l, NoDup l → getUniqueItems l = l).
  { intros l Hl. rewrite getUniqueItems_firstSeen.
    apply dedupFirstSeen_NoDup_id; [done|]. intros x _. apply not_elem_of_nil. }
  split; [|split].
  - split; [|apply Hfix]. intros <-.
    rewrite getUniqueItems_firstSeen. apply dedupFirstSeen_NoDup.
  - apply Hfix. rewrite getUniqueItems_firstSeen. apply dedupFirstSeen_NoDup.
  - apply sublist_length. rewrite getUniqueItems_firstSeen.
    apply dedupFirstSeen_sublist.
Qed.

(** ** The resolver, once more *)

Lemma curatorHistory_elem_of obs target n ident :
  ident ∈ curatorHistory obs target n ↔
  ∃ j, j < n ∧ identifications obs !! j = Some ident ∧ login (user ident) = target.
Proof.
  unfold curatorHistory.
  rewrite list_elem_of_filter, elem_of_reverse, elem_of_take. split.
  - intros [Hlogin (j & Hj & Hlt)]. by exists j.
  - intros (j & Hlt & Hj & Hlogin). split; [done|]. by exists j.
Qed.

Lemma forwardScan_date i l deprecated d :
  originalConfirmationDate (forwardScan i l deprecated) = Some d →
  ∃ h, h ∈ l ∧ isTaxonChange h = false ∧ confirmationDate h = d.
Proof.
  revert i deprecated. induction l as [|h l IH]; intros i deprecated; [done|].
  cbn [forwardScan]. destruct (isTaxonChange h) eqn:Hh; cbn [negb].
  - intros Hd. destruct (IH _ _ Hd) as (h' & Hin & ?).
    exists h'. split; [by apply list_elem_of_further | done].
  - cbn. intros [= <-]. exists h. split; [apply list_elem_of_here | done].
Qed.

Lemma forwardScan_deprecated i l deprecated t :
  t ∈ deprecatedTaxonIds (forwardScan i l deprecated) →
  t ∈ deprecated ∨ ∃ k h, l !! k = Some h ∧ i + k ≠ 0 ∧ taxonId h = t.
Proof.
  revert i deprecated. induction l as [|h l IH]; intros i deprecated.
  - cbn. by left.
  - cbn [forwardScan].
    assert (Hstep : ∀ t',
              t' ∈ (if bool_decide (i ≠ 0) then deprecated ++ [taxonId h] else deprecated) →
              t' ∈ deprecated ∨ (i ≠ 0 ∧ taxonId h = t')).
    { intros t'. case_bool_decide; [|by left].
      rewrite elem_of_app, list_elem_of_singleton.
      intros [?| ->]; [by left | by right]. }
    destruct (isTaxonChange h); cbn [negb].
    + intros Ht. destruct (IH _ _ Ht) as [Ht'|(k & h' & Hk & Hpos & Hid)].
      * destruct (Hstep _ Ht') as [?|[? ?]]; [by left|].
        right. exists 0, h. split; [done|]. split; [lia | done].
      * right. exists (S k), h'. split; [done|]. split; [lia | done].
    + cbn. intros Ht. destruct (Hstep _ Ht) as [?|[? ?]]; [by left|].
      right. exists 0, h. split; [done|]. split; [lia | done].
Qed.

Lemma lookup_map_historical (l : list Identification) k h :
  map historical l !! k = Some h → ∃ ident, l !! k = Some ident ∧ h = historical ident.
Proof.
  revert k. induction l as [|x l IH]; intros k; [done|].
  destruct k as [|k]; cbn.
  - intros [= <-]. by exists x.
  - apply IH.
Qed.

Lemma elem_of_map_historical (l : list Identification) h :
  h ∈ map historical l → ∃ ident, ident ∈ l ∧ h = historical ident.
Proof.
  intros Hin. apply list_elem_of_lookup in Hin as [k Hk].
  apply lookup_map_historical in Hk as (ident & Hk & ->).
  exists ident. split; [|done]. apply list_elem_of_lookup. by exists k.
Qed.

(** X4: the resolver only appends to the event sink, and neither what it
    appends nor what it returns depends on what the sink holds; and the
    resolution it returns is the one the earlier revision, which has no sink,
    computes. *)
Theorem resolver_appends_to_sink
    (Date_getFullYear : string → option Z) (idx : nat) (obs : Observation)
    (sink : list TaxonChangeData) :
  getConfirmationDateAccountingForTaxonChanges Date_getFullYear idx obs sink =
    (fun out => (out.1, sink ++ out.2))
      <$> getConfirmationDateAccountingForTaxonChanges Date_getFullYear idx obs []
  ∧ Helpers.getConfirmationDateAccountingForTaxonChanges idx obs =
      fst <$> getConfirmationDateAccountingForTaxonChanges Date_getFullYear idx obs sink.
Proof.
  split; [|apply helpers_resolver_agrees].
  destruct (identifications obs !! idx) as [cur|] eqn:Hidx.
  - destruct (taxon_change cur) as [change|] eqn:Hchange.
    + destruct (unknownTaxonChangeType change) eqn:Hknown.
      * by rewrite !(resolver_unknown_change _ _ _ _ _ _ Hidx Hchange Hknown).
      * by rewrite !(resolver_known_change _ _ _ _ _ _ Hidx Hchange Hknown).
    + rewrite !(resolver_no_change _ _ _ _ _ Hidx Hchange). cbn.
      by rewrite app_nil_r.
  - by rewrite !(resolver_out_of_range _ _ _ _ Hidx).
Qed.

(** X5: the resolver never looks at the identifications made after the one
    at the index: replacing them by others changes nothing. *)
Theorem resolver_ignores_later_identifications
    (Date_getFullYear : string → option Z) (idx : nat) (obs : Observation)
    (later : list Identification) (sink : list TaxonChangeData) :
  idx < length (identifications obs) →
  getConfirmationDateAccountingForTaxonChanges Date_getFullYear idx
    (withIdentifications obs (take (S idx) (identifications obs) ++ later)) sink =
  getConfirmationDateAccountingForTaxonChanges Date_getFullYear idx obs sink.
Proof.
  intros Hidx. apply resolver_prefix; [done|]. cbn.
  rewrite take_app_le by (rewrite length_take; lia).
  by rewrite take_take, Nat.min_id.
Qed.

Lemma resolver_ignores_later_identifications_witness :
  getConfirmationDateAccountingForTaxonChanges Sample.getFullYear 1
    (withIdentifications Sample.obsSub
       (take 2 (identifications Sample.obsSub) ++ [Sample.aliceBogus])) [] =
  getConfirmationDateAccountingForTaxonChanges Sample.getFullYear 1 Sample.obsSub [].
Proof.
  apply (resolver_ignores_later_identifications Sample.getFullYear 1 Sample.obsSub
           [Sample.aliceBogus] []).
  cbn. lia.
Defined.

(** X6: whatever the resolver returns comes from the curator's own history
    up to the index.  A confirmation date, when one is returned, is the
    creation date of an identification of the same user, at or before the
    index, that is not a taxon change; each deprecated id is the taxon id of
    an identification of the same user strictly before the index. *)
Theorem resolution_comes_from_curator_history
    (Date_getFullYear : string → option Z) (idx : nat) (obs : Observation)
    (cur : Identification) (sink sink' : list TaxonChangeData)
    (resolution : Resolution) :
  identifications obs !! idx = Some cur →
  getConfirmationDateAccountingForTaxonChanges Date_getFullYear idx obs sink
    = Ok (resolution, sink') →
  (∀ d,
     originalConfirmationDate resolution = Some d →
     ∃ j ident,
       j ≤ idx ∧ identifications obs !! j = Some ident
       ∧ login (user ident) = login (user cur)
       ∧ taxon_change ident = None ∧ created_at ident = d)
  ∧ (∀ t,
       t ∈ deprecatedTaxonIds resolution →
       ∃ j ident,
         j < idx ∧ identifications obs !! j = Some ident
         ∧ login (user ident) = login (user cur)
         ∧ taxon_id ident = t).
Proof.
  intros Hidx Hrun.
  destruct (taxon_change cur) as [change|] eqn:Hchange.
  - destruct (unknownTaxonChangeType change) eqn:Hknown.
    + by rewrite (resolver_unknown_change _ _ _ _ _ _ Hidx Hchange Hknown) in Hrun.
    + rewrite (resolver_known_change _ _ _ _ _ _ Hidx Hchange Hknown) in Hrun.
      injection Hrun as <- _. split.
      * intros d Hd. apply forwardScan_date in Hd as (h & Hin & Hnochange & Hdate).
        apply elem_of_map_historical in Hin as (ident & Hin & ->).
        apply curatorHistory_elem_of in Hin as (j & Hj & Hlookup & Hlogin).
        exists j, ident. split; [lia|]. split; [done|]. split; [done|].
        split; [|done]. cbn in Hnochange. by destruct (taxon_change ident).
      * intros t Ht.
        apply forwardScan_deprecated in Ht as [Ht|(k & h & Hk & Hpos & Hid)];
          [by apply elem_of_nil in Ht|].
        rewrite (curatorHistory_S_own _ _ _ Hidx) in Hk.
        destruct k as [|k]; [lia|]. cbn in Hk.
        apply lookup_map_historical in Hk as (ident & Hk & ->).
        assert (Hin : ident ∈ curatorHistory obs (login (user cur)) idx)
          by (apply list_elem_of_lookup; eauto).
        apply curatorHistory_elem_of in Hin as (j & Hj & Hlookup & Hlogin).
        by exists j, ident.
  - rewrite (resolver_no_change _ _ _ _ _ Hidx Hchange) in Hrun.
    injection Hrun as <- _. split.
    + cbn. intros d [= <-]. by exists idx, cur.
    + cbn. intros t Ht. by apply elem_of_nil in Ht.
Qed.

Lemma resolution_comes_from_curator_history_witness :
  (∀ d,
     Some "2019-04-01T09:00:00Z" = Some d →
     ∃ j ident,
       j ≤ 2 ∧ identifications Sample.obsSwap !! j = Some ident
       ∧ login (user ident) = "alice"
       ∧ taxon_change ident = None ∧ created_at ident = d)
  ∧ (∀ t,
       t ∈ [100%Z] →
       ∃ j ident,
         j < 2 ∧ identifications Sample.obsSwap !! j = Some ident
         ∧ login (user ident) = "alice"
         ∧ taxon_id ident = t).
Proof.
  apply (resolution_comes_from_curator_history Sample.getFullYear 2 Sample.obsSwap
           Sample.aliceSwapped []
           [{| tcd_id := 1%Z; previousSpeciesName := "Hemaris diffinis";
               newSpeciesName := "Hemaris thetis"; yearChanged := Some 2021%Z;
               taxonChangeId := 9001%Z |}]
           {| deprecatedTaxonIds := [100%Z];
              originalConfirmationDate := Some "2019-04-01T09:00:00Z" |} eq_refl).
  vm_compute. reflexivity.
Defined.

(** ** How a run ends *)

Section RunOutcome.

Variable Date_getFullYear : string → option Z.
Variable Date_getTime : option string → option Z.

Local Abbreviation recordIdentification :=
  (recordIdentification Date_getFullYear Date_getTime).
Local Abbreviation parseObservation := (parseObservation Date_getFullYear Date_getTime).
Local Abbreviation parseFile := (parseDataFile Date_getFullYear Date_getTime).

Lemma recordIdentification_outcome ranks obs i q acc :
  identifications obs !! i = Some q →
  (fun _ => ()) <$> recordIdentification ranks obs i q acc =
    match resolveSpecies q with
    | Ok _ =>
        match taxon_change q with
        | Some change => if unknownTaxonChangeType change then ProcessExit else Ok ()
        | None => Ok ()
        end
    | ProcessExit => ProcessExit
    | TypeError => TypeError
    end.
Proof.
  intros Hi.
  destruct (resolveSpecies q) as [[sid sname]| |] eqn:Hspecies;
    [| by unfold recordIdentification; rewrite Hspecies..].
  destruct (taxon_change q) as [change|] eqn:Hchange.
  - destruct (unknownTaxonChangeType change) eqn:Hknown.
    + unfold recordIdentification. rewrite Hspecies.
      cbn -[getConfirmationDateAccountingForTaxonChanges].
      by rewrite (resolver_unknown_change _ _ _ _ _ _ Hi Hchange Hknown).
    + by rewrite (recordIdentification_ok _ _ _ _ _ _ _ _ _ _ _ Hspecies
                    (resolver_known_change _ _ _ _ _ _ Hi Hchange Hknown)).
  - by rewrite (recordIdentification_ok _ _ _ _ _ _ _ _ _ _ _ Hspecies
                  (resolver_no_change _ _ _ _ _ Hi Hchange)).
Qed.

Lemma parseObservation_outcome curators ranks acc obs :
  (fun _ => ()) <$> parseObservation curators ranks acc obs =
    observationCheck curators obs.
Proof.
  rewrite parseObservation_closed. unfold observationCheck.
  destruct (firstQualifying curators (identifications obs)) as [[i q]|] eqn:Hfirst;
    [|done].
  apply list_find_Some in Hfirst as (Hi & _).
  rewrite <- (recordIdentification_outcome ranks obs i q acc Hi).
  by destruct (recordIdentification ranks obs i q acc).
Qed.

Lemma parseDataFile_outcome results curators ranks acc :
  (fun _ => ()) <$> parseFile results curators ranks acc =
    observationChecks curators results.
Proof.
  revert acc. induction results as [|obs results IH]; intros acc; [done|].
  cbn [parseDataFile observationChecks].
  rewrite <- (parseObservation_outcome curators ranks acc obs).
  destruct (parseObservation curators ranks acc obs) as [acc1| |]; cbn; [apply IH|done..].
Qed.

Lemma observationChecks_ok curators results :
  observationChecks curators results = Ok () ↔
  Forall (fun obs => observationCheck curators obs = Ok ()) results.
Proof.
  induction results as [|obs results IH]; cbn [observationChecks].
  - split; [constructor | done].
  - rewrite Forall_cons.
    destruct (observationCheck curators obs) as [[]| |]; [|split; [done|by intros [? _]]..].
    rewrite IH. tauto.
Qed.

End RunOutcome.

(** X7: whether the processing of an observation returns, exits or throws
    depends on the observation and the curators only, not on what has been
    accumulated: it is decided by the earliest qualifying identification,
    whose species is resolved before its taxon change is checked.  A run
    ends as the first observation that does not return; it returns a result
    exactly when every observation passes. *)
Theorem run_outcome_decided_by_observations
    (Date_getFullYear : string → option Z) (Date_getTime : option string → option Z)
    (objectMember : string → bool)
    (curators ranks : list string) :
  (∀ acc obs,
     (fun _ => ()) <$> parseObservation Date_getFullYear Date_getTime
                         curators ranks acc obs =
       observationCheck curators obs)
  ∧ (∀ packets,
       (fun _ => ()) <$> parseDataFiles Date_getFullYear Date_getTime objectMember
                           packets curators ranks =
         observationChecks curators (concat packets))
  ∧ (∀ packets,
       (∃ out, parseDataFiles Date_getFullYear Date_getTime objectMember packets curators ranks
                 = Ok out) ↔
       Forall (fun obs => observationCheck curators obs = Ok ()) (concat packets)).
Proof.
  assert (Hrun : ∀ packets,
    (fun _ => ()) <$> parseDataFiles Date_getFullYear Date_getTime objectMember
                        packets curators ranks =
      observationChecks curators (concat packets)).
  { intros packets. unfold parseDataFiles. rewrite parsePackets_concat.
    rewrite <- (parseDataFile_outcome Date_getFullYear Date_getTime
                  (concat packets) curators ranks initial).
    by destruct (parseDataFile _ _ _ _ _ _). }
  split; [apply parseObservation_outcome|]. split; [exact Hrun|].
  intros packets. rewrite <- observationChecks_ok, <- Hrun.
  destruct (parseDataFiles _ _ _ _ _ _) as [out| |]; cbn.
  - split; [done | by exists out].
  - split; [by intros [? ?] | done].
  - split; [by intros [? ?] | done].
Qed.

(** X8: the processing of an observation throws exactly when its earliest
    qualifying identification is at subspecies rank and its taxon has an
    empty ancestor chain, whatever the taxon change of that identification:
    the last ancestor is read before the resolver is called. *)
Theorem subspecies_without_ancestors_throws
    (Date_getFullYear : string → option Z) (Date_getTime : option string → option Z)
    (curators ranks : list string) (acc : Accumulators) (obs : Observation) :
  parseObservation Date_getFullYear Date_getTime curators ranks acc obs = TypeError ↔
  ∃ i q,
    firstQualifying curators (identifications obs) = Some (i, q)
    ∧ t_rank (taxon q) = "subspecies"
    ∧ t_ancestors (taxon q) = [].
Proof.
  assert (Hcheck : parseObservation Date_getFullYear Date_getTime curators ranks acc obs
                     = TypeError ↔ observationCheck curators obs = TypeError).
  { rewrite <- (parseObservation_outcome Date_getFullYear Date_getTime curators ranks
                  acc obs).
    by destruct (parseObservation _ _ _ _ _ _). }
  rewrite Hcheck. unfold observationCheck, resolveSpecies, lastItem.
  destruct (firstQualifying curators (identifications obs)) as [[i q]|];
    [|split; [done | by intros (? & ? & ? & _)]].
  case_bool_decide as Hrank.
  - destruct (t_ancestors (taxon q)) as [|a ancestors] eqn:Hanc.
    + cbn. split; [|done]. intros _. by exists i, q.
    + rewrite last_cons. destruct (last ancestors); cbn.
      all: split; [by repeat case_match|];
        intros (? & ? & [= <- <-] & _ & ?); congruence.
  - cbn. split; [by repeat case_match|].
    intros (? & ? & [= <- <-] & ? & _). done.
Qed.

(** ** What a run accumulates *)

Section RunContents.

Variable Date_getFullYear : string → option Z.
Variable Date_getTime : option string → option Z.

Local Abbreviation parseObservation := (parseObservation Date_getFullYear Date_getTime).
Local Abbreviation parseFile := (parseDataFile Date_getFullYear Date_getTime).
Local Abbreviation parsePackets := (parsePackets Date_getFullYear Date_getTime).

Lemma entryComplete_mono curators seen seen' entry :
  (∀ obs, obs ∈ seen → obs ∈ seen') →
  entryComplete curators seen entry → entryComplete curators seen' entry.
Proof.
  intros Hsub (Hname & Htax & Hobs & Hrecords).
  split; [done|]. split; [done|]. split; [done|].
  eapply Forall_impl; [exact Hrecords|].
  intros record [Hcurator (obs & Hin & Hid)]. split; [done|].
  exists obs. split; [by apply Hsub | done].
Qed.

Lemma parseObservation_entries curators ranks acc obs acc' seen :
  parseObservation curators ranks acc obs = Ok acc' →
  map_Forall (fun _ entry => entryComplete curators seen entry) (processedData acc) →
  map_Forall (fun _ entry => entryComplete curators (seen ++ [obs]) entry)
             (processedData acc').
Proof.
  intros Hrun Hinv.
  assert (Hold : map_Forall (fun _ entry => entryComplete curators (seen ++ [obs]) entry)
                            (processedData acc)).
  { eapply map_Forall_impl; [exact Hinv|]. intros k entry.
    apply entryComplete_mono. intros o Ho. apply elem_of_app. by left. }
  apply parseObservation_inv in Hrun
    as [[_ ->]|(i & q & sid & sname & resolution & Hfirst & _ & _ & ->)]; [done|].
  cbn. apply map_Forall_insert_2; [|done].
  apply list_find_Some in Hfirst as (_ & Hq & _).
  apply qualifies_spec in Hq as (_ & Hcurator & _).
  assert (Hnew : curator (observationRecord Date_getTime obs q
                            (originalConfirmationDate resolution)) ∈ curators
                 ∧ ∃ o, o ∈ seen ++ [obs]
                        ∧ observationId (observationRecord Date_getTime obs q
                                           (originalConfirmationDate resolution))
                          = obs_id o).
  { split; [done|]. exists obs. split; [|done].
    apply elem_of_app. right. apply list_elem_of_here. }
  unfold entryComplete. cbn.
  split; [eauto|]. split; [by destruct (taxonomy _); cbn; eauto|].
  split; [by destruct (observations _)|].
  apply Forall_app. split; [|by constructor].
  destruct (processedData acc !! sid) as [entry|] eqn:Hentry; cbn; [|constructor].
  by destruct (Hold sid entry Hentry) as (_ & _ & _ & ?).
Qed.

Lemma parseDataFile_entries results curators ranks acc acc' seen :
  parseFile results curators ranks acc = Ok acc' →
  map_Forall (fun _ entry => entryComplete curators seen entry) (processedData acc) →
  map_Forall (fun _ entry => entryComplete curators (seen ++ results) entry)
             (processedData acc').
Proof.
  revert acc seen. induction results as [|obs results IH]; intros acc seen Hrun Hinv.
  - injection Hrun as <-. by rewrite app_nil_r.
  - cbn in Hrun.
    destruct (parseObservation curators ranks acc obs) as [acc1| |] eqn:Hobs; [|done..].
    cbn in Hrun. rewrite (cons_middle obs seen results), app_assoc.
    apply (IH _ _ Hrun). by eapply parseObservation_entries.
Qed.

Lemma recordCount_empty : recordCount ∅ = 0.
Proof. unfold recordCount. apply map_fold_empty. Qed.

Lemma parseObservation_recordCount curators ranks acc obs acc' :
  parseObservation curators ranks acc obs = Ok acc' →
  recordCount (processedData acc') =
    recordCount (processedData acc) + (if hasQualifying curators obs then 1 else 0).
Proof.
  intros Hrun. unfold hasQualifying.
  apply parseObservation_inv in Hrun
    as [[-> ->]|(i & q & sid & sname & resolution & -> & _ & _ & ->)]; [lia|].
  cbn. rewrite recordCount_insert; [lia|]. cbn. rewrite length_app. cbn. lia.
Qed.

Lemma parseDataFile_recordCount results curators ranks acc acc' :
  parseFile results curators ranks acc = Ok acc' →
  recordCount (processedData acc') =
    recordCount (processedData acc)
    + length (filter (fun obs => hasQualifying curators obs = true) results).
Proof.
  revert acc. induction results as [|obs results IH]; intros acc Hrun.
  - injection Hrun as <-. cbn. lia.
  - cbn in Hrun.
    destruct (parseObservation curators ranks acc obs) as [acc1| |] eqn:Hobs; [|done..].
    cbn in Hrun. rewrite (IH _ Hrun), (parseObservation_recordCount _ _ _ _ _ Hobs).
    rewrite filter_cons. destruct (hasQualifying curators obs); cbn.
    + rewrite decide_True by done. cbn. lia.
    + rewrite decide_False by done. lia.
Qed.

Lemma recordCount_delete (processed : gmap Z SpeciesEntry) k :
  recordCount (delete k processed) ≤ recordCount processed.
Proof.
  destruct (processed !! k) as [entry|] eqn:Hk.
  - unfold recordCount.
    rewrite (map_fold_delete_L _ _ k entry processed); [lia | intros; lia | done].
  - by rewrite delete_id.
Qed.

Lemma recordCount_removeTaxons items (processed : gmap Z SpeciesEntry) :
  recordCount (removeTaxons items processed) ≤ recordCount processed.
Proof.
  unfold removeTaxons. revert processed.
  induction items as [|k items IH]; intros processed; cbn [foldl]; [done|].
  etrans; [apply IH | apply recordCount_delete].
Qed.

(** The collectors after an observation, from the observation alone. *)
Lemma parseObservation_collectors curators ranks acc obs acc' :
  parseObservation curators ranks acc obs = Ok acc' →
  taxonsToRemove acc' = taxonsToRemove acc ++ deprecatedBy curators obs
  ∧ taxonChangeData acc' =
      taxonChangeData acc ++ eventsBy Date_getFullYear curators obs.
Proof.
  intros Hrun. unfold deprecatedBy, eventsBy.
  apply parseObservation_inv in Hrun
    as [[-> ->]|(i & q & sid & sname & resolution & -> & _ & Hres & Hacc)].
  - by rewrite !app_nil_r.
  - rewrite (helpers_resolver_agrees Date_getFullYear i obs (taxonChangeData acc)), Hres.
    cbn. rewrite Hacc at 1. cbn. split; [done|].
    destruct (identifications obs !! i) as [cur|] eqn:Hi;
      [|by rewrite (resolver_out_of_range _ _ _ _ Hi) in Hres].
    destruct (taxon_change cur) as [change|] eqn:Hchange.
    + destruct (unknownTaxonChangeType change) eqn:Hknown.
      * by rewrite (resolver_unknown_change _ _ _ _ _ _ Hi Hchange Hknown) in Hres.
      * rewrite (resolver_known_change _ _ _ _ _ _ Hi Hchange Hknown) in Hres.
        rewrite (resolver_known_change _ _ _ _ _ _ Hi Hchange Hknown).
        by injection Hres as _ <-.
    + rewrite (resolver_no_change _ _ _ _ _ Hi Hchange) in Hres.
      rewrite (resolver_no_change _ _ _ _ _ Hi Hchange).
      injection Hres as _ <-. by rewrite app_nil_r.
Qed.

Lemma parseDataFile_collectors results curators ranks acc acc' :
  parseFile results curators ranks acc = Ok acc' →
  taxonsToRemove acc' =
    taxonsToRemove acc ++ concat (map (deprecatedBy curators) results)
  ∧ taxonChangeData acc' =
      taxonChangeData acc
      ++ concat (map (eventsBy Date_getFullYear curators) results).
Proof.
  revert acc. induction results as [|obs results IH]; intros acc Hrun.
  - injection Hrun as <-. cbn. by rewrite !app_nil_r.
  - cbn in Hrun.
    destruct (parseObservation curators ranks acc obs) as [acc1| |] eqn:Hobs; [|done..].
    cbn in Hrun. destruct (IH _ Hrun) as [-> ->].
    destruct (parseObservation_collectors _ _ _ _ _ Hobs) as [-> ->].
    cbn. by rewrite <- !app_assoc.
Qed.

Lemma parseDataFile_skips_unqualified results curators ranks acc :
  parseFile (filter (fun obs => hasQualifying curators obs = true) results)
    curators ranks acc =
  parseFile results curators ranks acc.
Proof.
  revert acc. induction results as [|obs results IH]; intros acc; [done|].
  rewrite filter_cons. cbn [parseDataFile].
  destruct (hasQualifying curators obs) eqn:Hq.
  - rewrite decide_True by done. cbn [parseDataFile].
    destruct (parseObservation curators ranks acc obs); cbn; [apply IH | done..].
  - rewrite decide_False by done. rewrite IH.
    rewrite (parseObservation_closed _ _ curators ranks acc obs).
    unfold hasQualifying in Hq.
    by destruct (firstQualifying curators (identifications obs)).
Qed.

End RunContents.

(** X9: in the aggregate a run returns, every entry has a species name, a
    taxonomy projection and at least one record; every record is by one of
    the curators and belongs to one of the observations read.  (So the
    cleanup of entries without records, after the scan of an observation,
    never finds one to delete.) *)
Theorem aggregate_entries_are_complete
    (Date_getFullYear : string → option Z) (Date_getTime : option string → option Z)
    (objectMember : string → bool)
    (packets : list (list Observation)) (curators ranks : list string)
    (aggregate : gmap Z SpeciesEntry)
    (ledger : gmap (option Z) (gmap string LedgerEntry)) :
  parseDataFiles Date_getFullYear Date_getTime objectMember packets curators ranks
    = Ok (aggregate, ledger) →
  ∀ k entry,
    aggregate !! k = Some entry →
    is_Some (speciesName entry)
    ∧ is_Some (taxonomy entry)
    ∧ observations entry ≠ []
    ∧ Forall (fun record =>
                curator record ∈ curators
                ∧ ∃ obs, obs ∈ concat packets ∧ observationId record = obs_id obs)
             (observations entry).
Proof.
  intros Hrun k entry Hk. unfold parseDataFiles in Hrun.
  rewrite parsePackets_concat in Hrun.
  destruct (parseDataFile Date_getFullYear Date_getTime (concat packets)
              curators ranks initial) as [acc| |] eqn:Hfile; [|done..].
  cbn in Hrun. injection Hrun as <- _.
  rewrite removeTaxons_lookup in Hk. destruct (decide _); [done|].
  pose proof (parseDataFile_entries Date_getFullYear Date_getTime _ _ _ _ _ []
                Hfile) as Hinv.
  cbn in Hinv. apply (Hinv (map_Forall_empty _) k entry Hk).
Qed.

Lemma aggregate_entries_are_complete_witness :
  ∃ aggregate ledger,
    parseDataFiles Sample.getFullYear Sample.getTime Sample.objectMember
      [[Sample.obsPlain; Sample.obsNone]; [Sample.obsSub]] Sample.curators Sample.ranks
      = Ok (aggregate, ledger)
    ∧ ∀ k entry,
        aggregate !! k = Some entry →
        is_Some (speciesName entry)
        ∧ is_Some (taxonomy entry)
        ∧ observations entry ≠ []
        ∧ Forall (fun record =>
                    curator record ∈ Sample.curators
                    ∧ ∃ obs,
                        obs ∈ concat [[Sample.obsPlain; Sample.obsNone]; [Sample.obsSub]]
                        ∧ observationId record = obs_id obs)
                 (observations entry).
Proof.
  destruct (parseDataFiles Sample.getFullYear Sample.getTime Sample.objectMember
              [[Sample.obsPlain; Sample.obsNone]; [Sample.obsSub]]
              Sample.curators Sample.ranks)
    as [[aggregate ledger]| |] eqn:Hok;
    [| vm_compute in Hok; discriminate Hok..].
  exists aggregate, ledger. split; [reflexivity|].
  exact (aggregate_entries_are_complete Sample.getFullYear Sample.getTime Sample.objectMember
           _ _ _ _ _ Hok).
Defined.

(** X10: before the global cleanup, the aggregate holds exactly as many
    records as there are observations with a qualifying identification; the
    aggregate returned holds at most that many. *)
Theorem one_record_per_qualifying_observation
    (Date_getFullYear : string → option Z) (Date_getTime : option string → option Z)
    (objectMember : string → bool)
    (packets : list (list Observation)) (curators ranks : list string)
    (acc : Accumulators) :
  parsePackets Date_getFullYear Date_getTime packets curators ranks initial = Ok acc →
  recordCount (processedData acc) =
    length (filter (fun obs => hasQualifying curators obs = true) (concat packets))
  ∧ ∃ ledger,
      parseDataFiles Date_getFullYear Date_getTime objectMember packets curators ranks
        = Ok (removeTaxons (getUniqueItems (taxonsToRemove acc)) (processedData acc),
              ledger)
      ∧ recordCount (removeTaxons (getUniqueItems (taxonsToRemove acc))
                       (processedData acc))
        ≤ length (filter (fun obs => hasQualifying curators obs = true)
                    (concat packets)).
Proof.
  intros Hrun.
  assert (Hcount : recordCount (processedData acc) =
            length (filter (fun obs => hasQualifying curators obs = true)
                      (concat packets))).
  { rewrite parsePackets_concat in Hrun.
    rewrite (parseDataFile_recordCount _ _ _ _ _ _ _ Hrun). cbn.
    by rewrite recordCount_empty. }
  split; [exact Hcount|].
  eexists. split.
  - unfold parseDataFiles. rewrite Hrun. reflexivity.
  - rewrite <- Hcount. apply recordCount_removeTaxons.
Qed.

Lemma one_record_per_qualifying_observation_witness :
  ∃ acc,
    parsePackets Sample.getFullYear Sample.getTime
      [[Sample.obsPlain; Sample.obsNone]; [Sample.obsSwap]]
      Sample.curators Sample.ranks initial = Ok acc
    ∧ recordCount (processedData acc) = 2
    ∧ recordCount (removeTaxons (getUniqueItems (taxonsToRemove acc))
                     (processedData acc)) ≤ 2.
Proof.
  destruct (parsePackets Sample.getFullYear Sample.getTime
              [[Sample.obsPlain; Sample.obsNone]; [Sample.obsSwap]]
              Sample.curators Sample.ranks initial) as [acc| |] eqn:Hok;
    [| vm_compute in Hok; discriminate Hok..].
  exists acc. split; [reflexivity|].
  destruct (one_record_per_qualifying_observation Sample.getFullYear Sample.getTime
              Sample.objectMember
              _ _ _ _ Hok) as (Hcount & ledger & _ & Hfinal).
  split; [exact Hcount | exact Hfinal].
Defined.

(** X11: how the observations are split into packets does not matter: the
    result is that of the single packet made of all of them, in order. *)
Theorem packets_are_read_as_one_sequence
    (Date_getFullYear : string → option Z) (Date_getTime : option string → option Z)
    (objectMember : string → bool)
    (packets packets' : list (list Observation)) (curators ranks : list string) :
  parseDataFiles Date_getFullYear Date_getTime objectMember packets curators ranks =
    parseDataFiles Date_getFullYear Date_getTime objectMember [concat packets] curators ranks
  ∧ (concat packets = concat packets' →
     parseDataFiles Date_getFullYear Date_getTime objectMember packets curators ranks =
       parseDataFiles Date_getFullYear Date_getTime objectMember packets' curators ranks).
Proof.
  assert (Hone : ∀ ps,
    parseDataFiles Date_getFullYear Date_getTime objectMember ps curators ranks =
      acc ← parseDataFile Date_getFullYear Date_getTime (concat ps) curators ranks
              initial;
      Ok (finish objectMember acc)).
  { intros ps. unfold parseDataFiles. by rewrite parsePackets_concat. }
  split.
  - rewrite !Hone. cbn [concat]. by rewrite app_nil_r.
  - intros Hsame. by rewrite !Hone, Hsame.
Qed.

Lemma packets_are_read_as_one_sequence_witness :
  parseDataFiles Sample.getFullYear Sample.getTime Sample.objectMember
    [[Sample.obsPlain]; [Sample.obsSwap; Sample.obsSub]] Sample.curators Sample.ranks =
  parseDataFiles Sample.getFullYear Sample.getTime Sample.objectMember
    [[Sample.obsPlain; Sample.obsSwap]; []; [Sample.obsSub]]
    Sample.curators Sample.ranks.
Proof.
  apply (packets_are_read_as_one_sequence Sample.getFullYear Sample.getTime Sample.objectMember
           [[Sample.obsPlain]; [Sample.obsSwap; Sample.obsSub]]
           [[Sample.obsPlain; Sample.obsSwap]; []; [Sample.obsSub]]).
  reflexivity.
Defined.

(** X12: the two collectors only grow, and by what each observation
    contributes on its own: the removal list by the deprecated ids the
    earlier revision of the resolver computes for the observation's earliest
    qualifying identification, the event collector by the events the
    resolver emits for it into an empty sink. *)
Theorem collectors_grow_by_each_observation
    (Date_getFullYear : string → option Z) (Date_getTime : option string → option Z)
    (packets : list (list Observation)) (curators ranks : list string)
    (acc acc' : Accumulators) :
  parsePackets Date_getFullYear Date_getTime packets curators ranks acc = Ok acc' →
  taxonsToRemove acc' =
    taxonsToRemove acc ++ concat (map (deprecatedBy curators) (concat packets))
  ∧ taxonChangeData acc' =
      taxonChangeData acc
      ++ concat (map (eventsBy Date_getFullYear curators) (concat packets)).
Proof.
  intros Hrun. rewrite parsePackets_concat in Hrun.
  by apply (parseDataFile_collectors Date_getFullYear Date_getTime) in Hrun.
Qed.

Lemma collectors_grow_by_each_observation_witness :
  ∃ acc',
    parsePackets Sample.getFullYear Sample.getTime
      [[Sample.obsPlain]; [Sample.obsSwap; Sample.obsChain]]
      Sample.curators Sample.ranks Sample.knownAccumulators = Ok acc'
    ∧ taxonsToRemove acc' = [100; 150; 100]%Z
    ∧ length (taxonChangeData acc') = 3.
Proof.
  destruct (parsePackets Sample.getFullYear Sample.getTime
              [[Sample.obsPlain]; [Sample.obsSwap; Sample.obsChain]]
              Sample.curators Sample.ranks Sample.knownAccumulators)
    as [acc'| |] eqn:Hok; [| vm_compute in Hok; discriminate Hok..].
  exists acc'. split; [reflexivity|].
  destruct (collectors_grow_by_each_observation Sample.getFullYear Sample.getTime
              _ _ _ _ _ Hok) as [-> ->].
  split; reflexivity.
Defined.

(** X13: observations without a qualifying identification can be left out
    of the input: the run ends the same way, with the same accumulators. *)
Theorem unqualified_observations_are_skipped
    (Date_getFullYear : string → option Z) (Date_getTime : option string → option Z)
    (results : list Observation) (curators ranks : list string) (acc : Accumulators) :
  parseDataFile Date_getFullYear Date_getTime
    (filter (fun obs => hasQualifying curators obs = true) results)
    curators ranks acc =
  parseDataFile Date_getFullYear Date_getTime results curators ranks acc.
Proof. apply parseDataFile_skips_unqualified. Qed.

(** ** The years and the names of the ledger *)

(** X14: the ledger has a year exactly when some event of the collector has
    it.  Under a year it has a prior name exactly when the name is not that
    of an inherited member and some event has that year and that name; so a
    year of the ledger is empty exactly when all events of that year have
    the name of an inherited member as prior name.  Every entry carries the
    new name and the change id of an event of its year and prior name. *)
Theorem ledger_years_and_names_come_from_events
    (objectMember : string → bool) (rows : list TaxonChangeData) :
  (∀ year,
     is_Some (groupByYear objectMember rows !! year) ↔
     ∃ row, row ∈ rows ∧ yearChanged row = year)
  ∧ (∀ year ofYear priorName,
       groupByYear objectMember rows !! year = Some ofYear →
       (is_Some (ofYear !! priorName) ↔
        objectMember priorName = false
        ∧ ∃ row, row ∈ rows ∧ yearChanged row = year
                 ∧ previousSpeciesName row = priorName))
  ∧ (∀ year ofYear,
       groupByYear objectMember rows !! year = Some ofYear →
       (ofYear = ∅ ↔
        ∀ row, row ∈ rows → yearChanged row = year →
               objectMember (previousSpeciesName row) = true))
  ∧ (∀ year priorName entry,
       ledgerLookup (groupByYear objectMember rows) year priorName = Some entry →
       objectMember priorName = false
       ∧ ∃ row, row ∈ rows ∧ yearChanged row = year
                ∧ previousSpeciesName row = priorName
                ∧ entry = {| le_newSpeciesName := newSpeciesName row;
                             le_taxonChangeId := taxonChangeId row |}).
Proof.
  assert (Hnames : ∀ year ofYear priorName,
     groupByYear objectMember rows !! year = Some ofYear →
     (is_Some (ofYear !! priorName) ↔
      objectMember priorName = false
      ∧ ∃ row, row ∈ rows ∧ yearChanged row = year
               ∧ previousSpeciesName row = priorName)).
  { intros year ofYear priorName Hyear.
    pose proof (groupByYear_lookup objectMember rows year priorName) as Hl.
    unfold ledgerLookup in Hl. rewrite Hyear in Hl. cbn in Hl. rewrite Hl.
    destruct (objectMember priorName);
      [split; [by intros [? ?] | by intros [? _]]|].
    split.
    - intros [entry Hentry]. split; [done|].
      destruct (list_find _ rows) as [[k row]|] eqn:Hfind; [|done].
      apply list_find_Some in Hfind as (Hk & [? ?] & _).
      exists row. split; [|done]. apply list_elem_of_lookup. by exists k.
    - intros (_ & row & Hin & Hy & Hn).
      destruct (list_find (sameLedgerKey year priorName) rows) as [found|] eqn:Hfind;
        [by eexists|].
      apply list_find_None in Hfind. rewrite Forall_forall in Hfind.
      by destruct (Hfind row Hin). }
  split; [apply groupByYear_year|]. split; [exact Hnames|]. split.
  - intros year ofYear Hyear. split.
    + intros -> row Hin Hy.
      destruct (objectMember (previousSpeciesName row)) eqn:Hmember; [done|].
      destruct (proj2 (Hnames year ∅ (previousSpeciesName row) Hyear))
        as [entry Hentry]; [split; [done|]; by exists row|].
      by rewrite lookup_empty in Hentry.
    + intros Hall. apply map_empty. intros priorName.
      destruct (ofYear !! priorName) as [entry|] eqn:Hentry; [|done].
      destruct (proj1 (Hnames year ofYear priorName Hyear))
        as (Hmember & row & Hin & Hy & <-); [by rewrite Hentry|].
      rewrite (Hall row Hin Hy) in Hmember. done.
  - intros year priorName entry. rewrite groupByYear_lookup.
    destruct (objectMember priorName); [done|].
    destruct (list_find _ rows) as [[k row]|] eqn:Hfind; [|done].
    cbn. intros [= <-]. split; [done|].
    apply list_find_Some in Hfind as (Hk & [? ?] & _).
    exists row. split; [|done]. apply list_elem_of_lookup. by exists k.
Qed.

Lemma ledger_years_and_names_come_from_events_witness :
  let first :=
    {| tcd_id := 1%Z; previousSpeciesName := "Hemaris diffinis";
       newSpeciesName := "Hemaris thetis"; yearChanged := Some 2021%Z;
       taxonChangeId := 9001%Z |} in
  let other :=
    {| tcd_id := 2%Z; previousSpeciesName := "toString";
       newSpeciesName := "Hemaris thetis"; yearChanged := None;
       taxonChangeId := 9002%Z |} in
  is_Some (groupByYear Sample.objectMember [first; other] !! None)
  ∧ ¬ is_Some (groupByYear Sample.objectMember [first; other] !! Some 2020%Z)
  ∧ is_Some (({[ "Hemaris diffinis" :=
                   {| le_newSpeciesName := "Hemaris thetis";
                      le_taxonChangeId := 9001%Z |} ]} : gmap string LedgerEntry)
             !! "Hemaris diffinis")
  ∧ ∀ ofYear, groupByYear Sample.objectMember [first; other] !! None = Some ofYear →
              ofYear = ∅.
Proof.
  intros first other.
  destruct (ledger_years_and_names_come_from_events Sample.objectMember [first; other])
    as (Hyears & Hnames & Hempty & _).
  split; [|split; [|split]].
  - apply Hyears. exists other. split; [|reflexivity].
    apply list_elem_of_further, list_elem_of_here.
  - intros Hyear. apply Hyears in Hyear as (row & Hin & Hy).
    repeat (apply elem_of_cons in Hin as [-> | Hin]; [discriminate Hy|]).
    by apply elem_of_nil in Hin.
  - apply (Hnames (Some 2021%Z) _ "Hemaris diffinis"); [vm_compute; reflexivity|].
    split; [reflexivity|].
    exists first. split; [apply list_elem_of_here | done].
  - intros ofYear HofYear. apply (Hempty None ofYear HofYear).
    intros row Hin Hy.
    repeat (apply elem_of_cons in Hin as [-> | Hin];
            [first [discriminate Hy | reflexivity]|]).
    by apply elem_of_nil in Hin.
Defined.

(** X19: for a prior species name that is not the name of an inherited
    member, what the ledger holds for a year and that name is the new
    species name and the taxon-change id of the first event of the collector
    with that year and that prior name, and nothing when there is no such
    event; so such an event, when no earlier event shares its year and prior
    name, is the one recorded, whatever follows it.  Under the name of an
    inherited member the ledger holds nothing.  The ledger a run returns is
    this fold of the events collected. *)
Theorem ledger_first_occurrence_wins
    (Date_getFullYear : string → option Z) (Date_getTime : option string → option Z)
    (objectMember : string → bool) :
  (∀ rows year priorName,
     ledgerLookup (groupByYear objectMember rows) year priorName =
       if objectMember priorName then None
       else (fun found => ledgerEntryOf found.2)
              <$> list_find (sameLedgerKey year priorName) rows)
  ∧ (∀ before row after,
       objectMember (previousSpeciesName row) = false →
       Forall (fun earlier =>
                 ¬ sameLedgerKey (yearChanged row) (previousSpeciesName row) earlier)
              before →
       ledgerLookup (groupByYear objectMember (before ++ row :: after))
         (yearChanged row) (previousSpeciesName row) =
         Some {| le_newSpeciesName := newSpeciesName row;
                 le_taxonChangeId := taxonChangeId row |})
  ∧ (∀ rows year priorName,
       Forall (fun row => ¬ sameLedgerKey year priorName row) rows →
       ledgerLookup (groupByYear objectMember rows) year priorName = None)
  ∧ (∀ packets curators ranks aggregate ledger,
       parseDataFiles Date_getFullYear Date_getTime objectMember packets curators ranks
         = Ok (aggregate, ledger) →
       ∃ acc,
         parsePackets Date_getFullYear Date_getTime packets curators ranks initial
           = Ok acc
         ∧ ledger = groupByYear objectMember (taxonChangeData acc)).
Proof.
  split; [apply groupByYear_lookup|]. split; [|split].
  - intros before row after Hmember Hbefore.
    rewrite groupByYear_lookup, Hmember.
    assert (Hfind : list_find
                      (sameLedgerKey (yearChanged row) (previousSpeciesName row))
                      (before ++ row :: after) = Some (length before, row)).
    { apply list_find_Some. split; [|split].
      - by rewrite lookup_app_r, Nat.sub_diag.
      - done.
      - intros j y Hj Hlt. rewrite lookup_app_l in Hj by done.
        rewrite Forall_lookup in Hbefore. by apply (Hbefore j). }
    by rewrite Hfind.
  - intros rows year priorName Hnone. rewrite groupByYear_lookup.
    destruct (objectMember priorName); [done|].
    by rewrite (proj2 (list_find_None _ rows) Hnone).
  - intros packets curators ranks aggregate ledger Hrun.
    unfold parseDataFiles in Hrun.
    destruct (parsePackets Date_getFullYear Date_getTime packets curators ranks initial)
      as [acc| |]; [|done..].
    cbn in Hrun. injection Hrun as _ <-. by exists acc.
Qed.

Lemma ledger_first_occurrence_wins_witness :
  let first :=
    {| tcd_id := 1%Z; previousSpeciesName := "Hemaris diffinis";
       newSpeciesName := "Hemaris thetis"; yearChanged := Some 2021%Z;
       taxonChangeId := 9001%Z |} in
  let other :=
    {| tcd_id := 2%Z; previousSpeciesName := "Hemaris aethra";
       newSpeciesName := "Hemaris thetis"; yearChanged := Some 2021%Z;
       taxonChangeId := 9002%Z |} in
  let again :=
    {| tcd_id := 3%Z; previousSpeciesName := "Hemaris diffinis";
       newSpeciesName := "Hemaris gracilis"; yearChanged := Some 2021%Z;
       taxonChangeId := 9003%Z |} in
  ledgerLookup (groupByYear Sample.objectMember ([other] ++ first :: [again]))
    (Some 2021%Z) "Hemaris diffinis" =
    Some {| le_newSpeciesName := "Hemaris thetis"; le_taxonChangeId := 9001%Z |}
  ∧ ledgerLookup (groupByYear Sample.objectMember [other; first; again])
      (Some 2020%Z) "Hemaris diffinis" = None.
Proof.
  intros first other again.
  destruct (ledger_first_occurrence_wins Sample.getFullYear Sample.getTime
              Sample.objectMember) as (_ & Hfirst & Hnone & _).
  split.
  - apply (Hfirst [other] first [again]); [reflexivity|].
    repeat constructor. intros [_ Hname]. discriminate Hname.
  - apply Hnone. repeat constructor; intros [Hyear _]; discriminate Hyear.
Defined.

(** ** Key minimisation *)

Section KeyFacts.

Variable nanoid : nat → nat → string.
Variable objectMember : string → bool.

Local Abbreviation taken := (keyTaken objectMember).
Local Abbreviation drawLoop := (drawKey nanoid objectMember).
Local Abbreviation getKey := (getShortestUniqueKey nanoid objectMember).
Local Abbreviation getKeys := (generateKeys nanoid objectMember).

Lemma keyTaken_insert_ne generated key other :
  key ≠ other →
  taken (<[key := true]> generated) other = taken generated other.
Proof. intros Hne. unfold keyTaken. by rewrite lookup_insert_ne. Qed.

Lemma keyTaken_insert_mono generated key other :
  taken generated other = true →
  taken (<[key := true]> generated) other = true.
Proof.
  intros Htaken. destruct (decide (key = other)) as [->|Hne].
  - unfold keyTaken. by rewrite lookup_insert_eq.
  - by rewrite keyTaken_insert_ne.
Qed.

(** The two ways the loop of twenty draws ends. *)
Lemma drawKey_inv remaining st key st' :
  drawLoop remaining st = (key, st') →
  currKeyLength st' = currKeyLength st
  ∧ ((key = "" ∧ generatedKeys st' = generatedKeys st
      ∧ draws st' = draws st + remaining)
     ∨ (taken (generatedKeys st) key = false
        ∧ generatedKeys st' = <[key := true]> (generatedKeys st)
        ∧ ∃ d, draws st ≤ d ∧ d < draws st' ∧ draws st' ≤ draws st + remaining
               ∧ key = nanoid d (currKeyLength st))).
Proof.
  revert st. induction remaining as [|remaining IH]; intros st; cbn [drawKey].
  - intros [= <- <-]. split; [done|]. left. split; [done|]. split; [done | lia].
  - destruct (taken (generatedKeys st) (nanoid (draws st) (currKeyLength st)))
      eqn:Htaken; cbn [negb].
    + intros Hrest. apply IH in Hrest as [Hlen Hcases]. cbn in *.
      split; [done|].
      destruct Hcases as [(-> & Hgen & Hdraws)|(Hfresh & Hgen & d & ? & ? & ? & Hkey)].
      * left. split; [done|]. split; [done | lia].
      * right. split; [done|]. split; [done|]. exists d. repeat split; [lia..|done].
    + intros [= <- <-]. cbn. split; [done|]. right. split; [done|]. split; [done|].
      exists (draws st). repeat split; lia.
Qed.

Lemma drawKey_first_fresh remaining st i :
  i < remaining →
  (∀ j, j < i →
        taken (generatedKeys st) (nanoid (draws st + j) (currKeyLength st)) = true) →
  taken (generatedKeys st) (nanoid (draws st + i) (currKeyLength st)) = false →
  drawLoop remaining st =
    (nanoid (draws st + i) (currKeyLength st),
     {| generatedKeys :=
          <[nanoid (draws st + i) (currKeyLength st) := true]> (generatedKeys st);
        currKeyLength := currKeyLength st;
        draws := draws st + S i |}).
Proof.
  revert st i. induction remaining as [|remaining IH]; intros st i Hi Hbefore Hfresh;
    [lia|].
  cbn [drawKey]. destruct i as [|i].
  - rewrite Nat.add_0_r in Hfresh. rewrite Hfresh. cbn [negb].
    by rewrite Nat.add_0_r, Nat.add_1_r.
  - pose proof (Hbefore 0 ltac:(lia)) as Hfirst. rewrite Nat.add_0_r in Hfirst.
    rewrite Hfirst. cbn [negb].
    rewrite (IH _ i); cbn; [| lia | |].
    + by rewrite !Nat.add_succ_r.
    + intros j Hj. rewrite <- Nat.add_succ_r. apply Hbefore. lia.
    + by rewrite <- Nat.add_succ_r.
Qed.

Lemma drawKey_exhausted remaining st :
  (∀ j, j < remaining →
        taken (generatedKeys st) (nanoid (draws st + j) (currKeyLength st)) = true) →
  drawLoop remaining st =
    ("", {| generatedKeys := generatedKeys st;
            currKeyLength := currKeyLength st;
            draws := draws st + remaining |}).
Proof.
  revert st. induction remaining as [|remaining IH]; intros st Hall;
    cbn [drawKey].
  - rewrite Nat.add_0_r. by destruct st.
  - pose proof (Hall 0 ltac:(lia)) as Hfirst. rewrite Nat.add_0_r in Hfirst.
    rewrite Hfirst. cbn [negb]. rewrite IH; cbn.
    + by rewrite Nat.add_succ_r.
    + intros j Hj. rewrite <- Nat.add_succ_r. apply Hall. lia.
Qed.

Lemma getShortestUniqueKey_inv fuel st key st' :
  getKey fuel st = Some (key, st') →
  key ≠ ""
  ∧ taken (generatedKeys st) key = false
  ∧ generatedKeys st' !! key = Some true
  ∧ (∀ other, taken (generatedKeys st) other = true →
              taken (generatedKeys st') other = true)
  ∧ (∀ other, other ≠ key → other ≠ "" →
              generatedKeys st' !! other = generatedKeys st !! other)
  ∧ currKeyLength st ≤ currKeyLength st'
  ∧ draws st < draws st'.
Proof.
  revert st. induction fuel as [|fuel IH]; intros st; [done|].
  cbn [getShortestUniqueKey].
  destruct (drawLoop 20 st) as [key1 st1] eqn:Hdraw.
  apply drawKey_inv in Hdraw as [Hlen Hcases].
  case_bool_decide as Hkey.
  - intros [= <- <-].
    destruct Hcases as [(-> & _)|(Hfresh & Hgen & d & ? & ? & ? & _)]; [done|].
    split; [done|]. split; [done|]. rewrite Hgen.
    split; [apply lookup_insert_eq|].
    split; [intros other; apply keyTaken_insert_mono|].
    split; [intros other Hne _; by apply lookup_insert_ne|]. lia.
  - subst key1. intros Hrec.
    apply IH in Hrec as (Hne & Hfresh & Hmarked & Hmono & Hframe & Hlen' & Hdraws').
    cbn in *. split; [done|].
    destruct Hcases as [(_ & Hgen & Hdraws)|(_ & Hgen & d & ? & ? & ? & _)];
      rewrite Hgen in *.
    + repeat split; [done..| lia | lia].
    + rewrite keyTaken_insert_ne in Hfresh by done.
      split; [done|]. split; [done|].
      split; [intros other Hother; by apply Hmono, keyTaken_insert_mono|].
      split; [|lia].
      intros other Hother Hnonempty.
      rewrite Hframe by done. by apply lookup_insert_ne.
Qed.

Lemma generateKeys_inv calls fuel st keys st' :
  getKeys calls fuel st = Some (keys, st') →
  NoDup keys
  ∧ Forall (fun key => key ≠ ""
                       ∧ taken (generatedKeys st) key = false
                       ∧ generatedKeys st' !! key = Some true) keys
  ∧ (∀ other, taken (generatedKeys st) other = true →
              taken (generatedKeys st') other = true)
  ∧ (∀ other, other ∉ keys → other ≠ "" →
              generatedKeys st' !! other = generatedKeys st !! other).
Proof.
  revert st keys. induction calls as [|calls IH]; intros st keys;
    cbn [generateKeys].
  - intros [= <- <-]. split; [constructor|]. split; [constructor|]. done.
  - destruct (getKey fuel st) as [[key st1]|] eqn:Hfirst; [|done].
    destruct (getKeys calls fuel st1) as [[rest st2]|] eqn:Hrest; [|done].
    intros [= <- <-].
    apply getShortestUniqueKey_inv in Hfirst
      as (Hne & Hfresh & Hmarked & Hmono & Hframe & _ & _).
    apply IH in Hrest as (Hnodup & Hall & Hmono' & Hframe').
    assert (Hnotin : key ∉ rest).
    { intros Hin. rewrite Forall_forall in Hall.
      destruct (Hall key Hin) as (_ & Hfresh' & _).
      unfold keyTaken in Hfresh'. by rewrite Hmarked in Hfresh'. }
    split; [by constructor|]. split; [|split].
    + constructor.
      * split; [done|]. split; [done|]. by rewrite Hframe'.
      * eapply Forall_impl; [exact Hall|]. cbn.
        intros other (Hother & Hfresh' & Hmarked'). split; [done|]. split; [|done].
        destruct (taken (generatedKeys st) other) eqn:Htaken; [|done].
        apply Hmono in Htaken. congruence.
    + intros other Hother. by apply Hmono', Hmono.
    + intros other Hother Hnonempty. apply not_elem_of_cons in Hother as [? ?].
      rewrite Hframe' by done. by apply Hframe.
Qed.

Lemma getShortestUniqueKey_length fuel st key st' :
  (∀ d size, String.length (nanoid d size) = size) →
  0 < currKeyLength st →
  getKey fuel st = Some (key, st') →
  String.length key = currKeyLength st'
  ∧ generatedKeys st' = <[key := true]> (generatedKeys st).
Proof.
  intros Hsize. revert st. induction fuel as [|fuel IH]; intros st Hpos; [done|].
  cbn [getShortestUniqueKey].
  destruct (drawLoop 20 st) as [key1 st1] eqn:Hdraw.
  apply drawKey_inv in Hdraw as [Hlen Hcases].
  case_bool_decide as Hkey.
  - intros [= <- <-].
    destruct Hcases as [(-> & _)|(_ & Hgen & d & _ & _ & _ & ->)]; [done|].
    by rewrite Hsize, Hlen.
  - subst key1.
    destruct Hcases as [(_ & Hgen & _)|(_ & _ & d & _ & _ & _ & Hempty)].
    + intros Hrec. apply IH in Hrec; cbn in *; [|lia]. by rewrite Hgen in Hrec.
    + pose proof (Hsize d (currKeyLength st)) as Hd. rewrite <- Hempty in Hd.
      cbn in Hd. lia.
Qed.

End KeyFacts.

(** X15: a key returned by [getShortestUniqueKey] is not empty, was not
    taken before the call (neither generated earlier nor the name of an
    inherited member), and is marked as generated after it; what was taken
    stays taken, the marks of all other non-empty keys are untouched, the
    key length never decreases and at least one string has been drawn. *)
Theorem returned_key_is_fresh_and_marked
    (nanoid : nat → nat → string) (objectMember : string → bool)
    (fuel : nat) (st st' : KeyState) (key : string) :
  getShortestUniqueKey nanoid objectMember fuel st = Some (key, st') →
  key ≠ ""
  ∧ keyTaken objectMember (generatedKeys st) key = false
  ∧ generatedKeys st' !! key = Some true
  ∧ (∀ other, keyTaken objectMember (generatedKeys st) other = true →
              keyTaken objectMember (generatedKeys st') other = true)
  ∧ (∀ other, other ≠ key → other ≠ "" →
              generatedKeys st' !! other = generatedKeys st !! other)
  ∧ currKeyLength st ≤ currKeyLength st'
  ∧ draws st < draws st'.
Proof. apply getShortestUniqueKey_inv. Qed.

(** X16: the keys returned by successive calls are pairwise distinct, and
    none of them was taken before the first call. *)
Theorem successive_keys_are_distinct
    (nanoid : nat → nat → string) (objectMember : string → bool)
    (calls fuel : nat) (st st' : KeyState) (keys : list string) :
  generateKeys nanoid objectMember calls fuel st = Some (keys, st') →
  NoDup keys
  ∧ length keys = calls
  ∧ Forall (fun key => key ≠ ""
                       ∧ keyTaken objectMember (generatedKeys st) key = false
                       ∧ generatedKeys st' !! key = Some true) keys.
Proof.
  intros Hrun. split; [|split].
  - by apply generateKeys_inv in Hrun as (? & _).
  - revert st keys Hrun. induction calls as [|calls IH]; intros st keys;
      cbn [generateKeys].
    + by intros [= <- <-].
    + destruct (getShortestUniqueKey nanoid objectMember fuel st) as [[key st1]|];
        [|done].
      destruct (generateKeys nanoid objectMember calls fuel st1) as [[rest st2]|]
        eqn:Hrest; [|done].
      intros [= <- <-]. cbn. f_equal. by eapply IH.
  - by apply generateKeys_inv in Hrun as (_ & ? & _).
Qed.

(** X17: a call returns the first of its twenty draws that is not taken,
    provided it is not the empty string, without recursing; when all twenty
    draws are taken, it goes on with keys one character longer. *)
Theorem first_free_draw_is_returned
    (nanoid : nat → nat → string) (objectMember : string → bool)
    (fuel : nat) (st : KeyState) :
  (∀ i,
     i < 20 →
     (∀ j, j < i →
           keyTaken objectMember (generatedKeys st)
             (nanoid (draws st + j) (currKeyLength st)) = true) →
     keyTaken objectMember (generatedKeys st)
       (nanoid (draws st + i) (currKeyLength st)) = false →
     nanoid (draws st + i) (currKeyLength st) ≠ "" →
     getShortestUniqueKey nanoid objectMember (S fuel) st =
       Some (nanoid (draws st + i) (currKeyLength st),
             {| generatedKeys :=
                  <[nanoid (draws st + i) (currKeyLength st) := true]>
                    (generatedKeys st);
                currKeyLength := currKeyLength st;
                draws := draws st + S i |}))
  ∧ ((∀ j, j < 20 →
           keyTaken objectMember (generatedKeys st)
             (nanoid (draws st + j) (currKeyLength st)) = true) →
     getShortestUniqueKey nanoid objectMember (S fuel) st =
       getShortestUniqueKey nanoid objectMember fuel
         {| generatedKeys := generatedKeys st;
            currKeyLength := S (currKeyLength st);
            draws := draws st + 20 |}).
Proof.
  split.
  - intros i Hi Hbefore Hfresh Hnonempty. cbn [getShortestUniqueKey].
    rewrite (drawKey_first_fresh nanoid objectMember 20 st i Hi Hbefore Hfresh).
    by rewrite bool_decide_eq_true_2.
  - intros Hall. cbn [getShortestUniqueKey].
    by rewrite (drawKey_exhausted nanoid objectMember 20 st Hall).
Qed.

(** X18: with a generator that returns strings of the length asked for, and
    a positive key length, the key returned has the key length the call
    leaves behind, and the call marks that key and nothing else. *)
Theorem returned_key_has_current_length
    (nanoid : nat → nat → string) (objectMember : string → bool)
    (fuel : nat) (st st' : KeyState) (key : string) :
  (∀ d size, String.length (nanoid d size) = size) →
  0 < currKeyLength st →
  getShortestUniqueKey nanoid objectMember fuel st = Some (key, st') →
  String.length key = currKeyLength st'
  ∧ generatedKeys st' = <[key := true]> (generatedKeys st).
Proof. apply getShortestUniqueKey_length. Qed.

Lemma returned_key_is_fresh_and_marked_witness :
  "b" ≠ ""
  ∧ keyTaken Sample.noMember (generatedKeys Sample.oneKey) "b" = false
  ∧ ({[ "b" := true; "a" := true ]} : gmap string bool) !! "b" = Some true.
Proof.
  destruct (returned_key_is_fresh_and_marked Sample.nanoid Sample.noMember 1
              Sample.oneKey
              {| generatedKeys := {[ "b" := true; "a" := true ]};
                 currKeyLength := 1; draws := 3 |} "b")
    as (Hne & Hfresh & Hmarked & _); [vm_compute; reflexivity|].
  split; [exact Hne|]. split; [exact Hfresh | exact Hmarked].
Defined.

Lemma successive_keys_are_distinct_witness :
  ∃ st',
    generateKeys Sample.nanoid Sample.noMember 4 2 Sample.freshKeys
      = Some (["a"; "b"; "c"; "xx"], st')
    ∧ NoDup ["a"; "b"; "c"; "xx"].
Proof.
  destruct (generateKeys Sample.nanoid Sample.noMember 4 2 Sample.freshKeys)
    as [[keys st']|] eqn:Hrun; [| vm_compute in Hrun; discriminate Hrun].
  pose proof (successive_keys_are_distinct Sample.nanoid Sample.noMember 4 2
                Sample.freshKeys st' keys Hrun) as (Hnodup & _ & _).
  assert (Hkeys : keys = ["a"; "b"; "c"; "xx"])
    by (vm_compute in Hrun; by injection Hrun as <- _).
  subst keys. exists st'. split; [reflexivity | exact Hnodup].
Defined.

Lemma first_free_draw_is_returned_witness :
  getShortestUniqueKey Sample.nanoid Sample.noMember 1 Sample.oneKey =
    Some ("b", {| generatedKeys := <["b" := true]> (generatedKeys Sample.oneKey);
                  currKeyLength := 1; draws := 3 |})
  ∧ getShortestUniqueKey Sample.nanoid Sample.noMember 2 Sample.threeKeys =
      getShortestUniqueKey Sample.nanoid Sample.noMember 1
        {| generatedKeys := generatedKeys Sample.threeKeys;
           currKeyLength := 2; draws := 23 |}.
Proof.
  split.
  - apply (proj1 (first_free_draw_is_returned Sample.nanoid Sample.noMember 0
                    Sample.oneKey) 1); [lia | | reflexivity | discriminate].
    intros j Hj. assert (j = 0) as -> by lia. reflexivity.
  - apply (proj2 (first_free_draw_is_returned Sample.nanoid Sample.noMember 1
                    Sample.threeKeys)).
    intros j Hj. reflexivity.
Defined.

Lemma sample_nanoid_length d size : String.length (Sample.nanoid d size) = size.
Proof.
  unfold Sample.nanoid. case_bool_decide as Hone.
  - subst size. by destruct d as [|[|[|d]]].
  - clear Hone. induction size as [|size IH]; [done|]. cbn. by rewrite IH.
Qed.

Lemma returned_key_has_current_length_witness :
  String.length "xx" = 2
  ∧ ({[ "xx" := true; "a" := true; "b" := true; "c" := true ]} : gmap string bool) =
      <["xx" := true]> (generatedKeys Sample.threeKeys).
Proof.
  destruct (returned_key_has_current_length Sample.nanoid Sample.noMember 2
              Sample.threeKeys
              {| generatedKeys :=
                   {[ "xx" := true; "a" := true; "b" := true; "c" := true ]};
                 currKeyLength := 2; draws := 24 |} "xx"
              sample_nanoid_length) as [Hlength Hmarks].
  - cbn. lia.
  - vm_compute. reflexivity.
  - split; [exact Hlength | exact Hmarks].
Defined.

Lemma taxonomy_holds_last_ancestor_of_each_wanted_rank_witness :
  "genus" ∈ ["family"; "genus"]
  ∧ ∃ a, a ∈ [Sample.family; Sample.genus; Sample.parentSpecies]
         ∧ anc_rank a = "genus" ∧ anc_name a = "Hemaris".
Proof.
  destruct (taxonomy_holds_last_ancestor_of_each_wanted_rank
              [Sample.family; Sample.genus; Sample.parentSpecies] ["family"; "genus"])
    as (_ & Hfrom & _ & _).
  apply (Hfrom "genus" "Hemaris"). vm_compute. reflexivity.
Defined.

Lemma run_outcome_decided_by_observations_witness :
  ∃ out,
    parseDataFiles Sample.getFullYear Sample.getTime Sample.objectMember
      [[Sample.obsPlain; Sample.obsNone]; [Sample.obsChain]]
      Sample.curators Sample.ranks = Ok out.
Proof.
  destruct (run_outcome_decided_by_observations Sample.getFullYear Sample.getTime
              Sample.objectMember
              Sample.curators Sample.ranks) as (_ & _ & Hreturns).
  apply Hreturns. repeat constructor.
Defined.

Lemma subspecies_without_ancestors_throws_witness :
  parseObservation Sample.getFullYear Sample.getTime Sample.curators Sample.ranks
    Sample.knownAccumulators Sample.obsOrphan = TypeError.
Proof.
  apply subspecies_without_ancestors_throws.
  exists 1, Sample.aliceOrphan. repeat split.
Defined.
